(** * PDF flip book: the page rasterizer [convert_pdf_to_images]

    A shallow embedding of [convert_pdf_to_images] of
    [src/streamlit_app.py] (lines 50-131) and of the lookup its caller
    [main] performs on the result (lines 217-219).

    The function is effectful Python: it creates a directory, writes files,
    drives a PyMuPDF document handle, logs, and relies on [try]/[except]/
    [finally].  It is embedded in a state-and-exception monad over an
    explicit model of the file system, the logger, the handles and the two
    local variables that outlive a [try] block.  What the operating system
    and the libraries decide (which call raises, what a page renders to) is
    read from a [World]. *)

From Stdlib Require Import Ascii QArith Qround Qabs Lqa.
From stdpp Require Import gmap strings list pretty.

Local Open Scope Z_scope.

(** ** Values *)

(** A Python exception that is an instance of [Exception], by its message
    (what [f"{e}"] prints).  [KeyboardInterrupt] and the other
    [BaseException]s that no [except Exception] catches are no part of the
    model. *)
Definition exn : Type := string.

Inductive result (A : Type) : Type :=
| Ok (a : A)
| Raise (e : exn).
Arguments Ok {A} a.
Arguments Raise {A} e.

(** [fitz.Matrix]: the six coefficients of an affine map. *)
Record Matrix : Type := mkMatrix {
  mat_a : Q; mat_b : Q; mat_c : Q; mat_d : Q; mat_e : Q; mat_f : Q }.

(** [fitz.Matrix(sx, sy)]: the scaling by [sx] and [sy]. *)
Definition fitz_Matrix (sx sy : Q) : Matrix := mkMatrix sx 0 0 sy 0 0.

(** A parsed document, as far as [convert_pdf_to_images] looks at it:
    [page_count], and the [width] and [height] (numbers of pixels) of the
    pixmap [page.get_pixmap(matrix=...)] gives for the page with a
    zero-based index. *)
Record Document : Type := mkDocument {
  page_count : nat;
  pixmap_size : nat -> Matrix -> N * N }.

(** The calls of one loop iteration that can raise. *)
Inductive page_step : Type :=
| LoadPage      (* pdf_document[page_num] *)
| GetPixmap     (* page.get_pixmap(...) *)
| FromBytes     (* Image.frombytes(...) *)
| Resample      (* the resize inside image.thumbnail(...) *)
| Save.         (* image.save(...) *)

(** What the environment decides.  [None] is a call that returns. *)
Record World : Type := mkWorld {
  makedirs_fault : string -> option exn;      (* os.makedirs(path, exist_ok=True) *)
  open_wb_fault : string -> option exn;       (* open(path, 'wb') *)
  write_fault : string -> option exn;         (* f.write(...) *)
  fitz_parse : list Byte.byte -> result Document;  (* fitz.open on a file with these bytes *)
  page_fault : nat -> page_step -> option exn;
  close_fault : option exn;                   (* pdf_document.close() *)
  format_exc : exn -> string }.               (* traceback.format_exc() *)

(** A file: the bytes written by [f.write], or a JPEG as [image.save]
    leaves it, by the dimensions of the image and the [quality] given. *)
Inductive file : Type :=
| Raw (bytes : list Byte.byte)
| Jpeg (width height quality : Z).

Inductive handle_state : Type := Closed | Open.

Inductive level : Type := DEBUG | INFO | ERROR.

(** The state the function runs in: the file system, the records the logger
    received, the document handles of the process, and the two locals that
    are assigned inside a [try] and read after it. *)
Record state : Type := mkState {
  dirs : gset string;
  files : gmap string file;
  log : list (level * string);
  handles : list handle_state;
  pdf_document : option (nat * Document);
  image_paths : list string }.

Definition set_dirs (f : gset string -> gset string) (s : state) : state :=
  mkState (f (dirs s)) (files s) (log s) (handles s) (pdf_document s) (image_paths s).
Definition set_files (f : gmap string file -> gmap string file) (s : state) : state :=
  mkState (dirs s) (f (files s)) (log s) (handles s) (pdf_document s) (image_paths s).
Definition set_log (f : list (level * string) -> list (level * string)) (s : state) : state :=
  mkState (dirs s) (files s) (f (log s)) (handles s) (pdf_document s) (image_paths s).
Definition set_handles (f : list handle_state -> list handle_state) (s : state) : state :=
  mkState (dirs s) (files s) (log s) (f (handles s)) (pdf_document s) (image_paths s).
Definition set_pdf_document (d : option (nat * Document)) (s : state) : state :=
  mkState (dirs s) (files s) (log s) (handles s) d (image_paths s).
Definition set_image_paths (f : list string -> list string) (s : state) : state :=
  mkState (dirs s) (files s) (log s) (handles s) (pdf_document s) (f (image_paths s)).

(** ** The monad *)

Definition M (A : Type) : Type := state -> result A * state.

Definition ret {A} (a : A) : M A := fun s => (Ok a, s).
Definition raise {A} (e : exn) : M A := fun s => (Raise e, s).
Definition bind {A B} (m : M A) (k : A -> M B) : M B :=
  fun s => match m s with
           | (Ok a, s') => k a s'
           | (Raise e, s') => (Raise e, s')
           end.

Notation "'let*' x ':=' m 'in' k" := (bind m (fun x => k))
  (at level 10, x name, m at level 100, k at level 200, only parsing).
Notation "m ';;' k" := (bind m (fun _ => k))
  (at level 100, k at level 200, right associativity, only parsing).

(** [try: m except Exception as e: h e] *)
Definition try_except {A} (m : M A) (h : exn -> M A) : M A :=
  fun s => match m s with
           | (Ok a, s') => (Ok a, s')
           | (Raise e, s') => h e s'
           end.

(** [try: m finally: f]: [f] runs on every way out of [m]; an exception of
    [f] replaces the outcome of [m]. *)
Definition try_finally {A} (m : M A) (f : M unit) : M A :=
  fun s => match m s with
           | (r, s') =>
               match f s' with
               | (Ok _, s'') => (r, s'')
               | (Raise e, s'') => (Raise e, s'')
               end
           end.

Definition get : M state := fun s => (Ok s, s).
Definition modify (f : state -> state) : M unit := fun s => (Ok tt, f s).

(** A call that raises when the world says so and has no effect then. *)
Definition may_raise (f : option exn) : M unit :=
  match f with
  | Some e => raise e
  | None => ret tt
  end.

Fixpoint for_each {A} (l : list A) (body : A -> M unit) : M unit :=
  match l with
  | [] => ret tt
  | x :: l' => body x ;; for_each l' body
  end.

(** [logger.debug], [logger.info] and [logger.error]: the record joins
    the records the logger received.  What the handlers do with a record is
    outside [files]: the file handler [setup_logging] installs appends it
    to [pdf_flipbook.log] of the folder, so [files] says what a path holds
    for every path but that of the log file. *)
Definition logger (lv : level) (msg : string) : M unit :=
  modify (set_log (fun l => l ++ [(lv, msg)])).

(** ** Library calls *)

(** [os.path.join(a, b)] of [posixpath]. *)
Definition starts_with_sep (b : string) : bool :=
  match b with
  | String c _ => bool_decide (c = "/"%char)
  | EmptyString => false
  end.

Fixpoint ends_with_sep (a : string) : bool :=
  match a with
  | EmptyString => false
  | String c EmptyString => bool_decide (c = "/"%char)
  | String _ a' => ends_with_sep a'
  end.

Definition path_join (a b : string) : string :=
  if starts_with_sep b then b
  else if bool_decide (a = "") || ends_with_sep a then a +:+ b
  else a +:+ "/" +:+ b.

(** [os.makedirs(path, exist_ok=True)]; the ancestors it creates on the way
    are not recorded. *)
Definition makedirs (w : World) (path : string) : M unit :=
  may_raise (makedirs_fault w path) ;;
  modify (set_dirs (fun ds => {[path]} ∪ ds)).

(** [with open(path, 'wb') as f: f.write(data)]: mode ['wb'] truncates the
    file as it opens it. *)
Definition open_wb_write (w : World) (path : string) (data : list Byte.byte) : M unit :=
  may_raise (open_wb_fault w path) ;;
  modify (set_files (insert path (Raw []))) ;;
  may_raise (write_fault w path) ;;
  modify (set_files (insert path (Raw data))).

(** [fitz.open(path)]: reads the file, and on success gives a new handle,
    which is open. *)
Definition fitz_open (w : World) (path : string) : M (nat * Document) :=
  let* s := get in
  match files s !! path with
  | Some (Raw data) =>
      match fitz_parse w data with
      | Ok doc =>
          modify (set_handles (fun hs => hs ++ [Open])) ;;
          ret (length (handles s), doc)
      | Raise e => raise e
      end
  | _ => raise "cannot open file"
  end.

(** [doc.close()] on the handle [h].  The handle is released whether or not
    the call reports an error (PyMuPDF raises from [close] only for a
    document that is closed already). *)
Definition fitz_close (w : World) (h : nat) : M unit :=
  modify (set_handles (fun hs => <[h := Closed]> hs)) ;;
  may_raise (close_fault w).

(** The truth value of a document in [if pdf_document:].  [fitz.Document]
    has no [__bool__] and its [__len__] returns [page_count], so Python
    takes [len(pdf_document) != 0]. *)
Definition doc_truth (doc : Document) : bool :=
  negb (page_count doc =? 0)%nat.

(** Python's [a / b] on numbers. *)
Definition py_div (a b : Q) : M Q :=
  if Qeq_bool b 0 then raise "division by zero" else ret (a / b)%Q.

(** Pillow, [Image.thumbnail]: the local [round_aspect].
    [min(floor, ceil, key=key)] keeps the first of the two when the keys
    tie.  The keys are exact here; Pillow computes them in floating point,
    where two keys that tie exactly can differ in the last bit, and then
    Pillow takes the ceiling where this definition takes the floor. *)
Definition round_aspect (number : Q) (key : Z -> Q) : Z :=
  Z.max
    (if Qle_bool (key (Qfloor number)) (key (Qceiling number))
     then Qfloor number else Qceiling number)
    1.

(** Pillow, [Image.thumbnail]: the local [preserve_aspect_ratio], for an
    image of the size [image] and the requested [size].  Pillow computes
    [aspect] and the two quotients in floating point; here they are exact
    rationals. *)
Definition preserve_aspect_ratio (image size : Z * Z) : M (option (Z * Z)) :=
  let '(width, height) := image in
  let '(x, y) := size in
  if (x >=? width) && (y >=? height) then ret None
  else
    let* aspect := py_div (inject_Z width) (inject_Z height) in
    let* r := py_div (inject_Z x) (inject_Z y) in
    if Qle_bool aspect r then
      ret (Some (round_aspect (inject_Z y * aspect)
                   (fun n => Qabs (aspect - inject_Z n / inject_Z y)), y))
    else
      let* q := py_div (inject_Z x) aspect in
      ret (Some (x, round_aspect q
                   (fun n => if n =? 0 then 0%Q
                             else Qabs (aspect - inject_Z x / inject_Z n))))
.

(** Pillow, [Image.resize]: refuses a size with a side that is not
    positive. *)
Definition resize (fault : option exn) (size : Z * Z) : M (Z * Z) :=
  if (fst size <=? 0) || (snd size <=? 0)
  then raise "height and width must be > 0"
  else may_raise fault ;; ret size.

(** Pillow, [image.thumbnail(size, Image.LANCZOS)], on the size of the
    image: the new size of [image]. *)
Definition thumbnail (fault : option exn) (image size : Z * Z) : M (Z * Z) :=
  let* final_size := preserve_aspect_ratio image size in
  match final_size with
  | None => ret image
  | Some final_size =>
      if bool_decide (image = final_size) then ret image
      else resize fault final_size
  end.

(** ** The program *)

(** [f'page_{page_num+1}.jpg'] under [temp_folder] (line 107). *)
Definition page_name (page_num : nat) : string :=
  "page_" +:+ pretty (page_num + 1)%nat +:+ ".jpg".

Definition page_path (temp_folder : string) (page_num : nat) : string :=
  path_join temp_folder (page_name page_num).

(** The scale of the rendering (line 97): [dpi/72], Python's true
    division. *)
Definition dpi_scale (dpi : Z) : Q := (inject_Z dpi / 72)%Q.

(** One iteration of the loop over the pages (lines 93-116).  An
    [image.save] that raises is taken to raise before it opens the file. *)
Definition process_page (w : World) (temp_folder : string)
    (dpi max_image_size quality : Z) (page_num : nat) : M unit :=
  try_except
    (let* s := get in
     let* doc :=
       match pdf_document s with
       | Some (_, doc) => ret doc
       | None => raise "'NoneType' object is not subscriptable"
       end in
     may_raise (page_fault w page_num LoadPage) ;;
     may_raise (page_fault w page_num GetPixmap) ;;
     let pix := pixmap_size doc page_num (fitz_Matrix (dpi_scale dpi) (dpi_scale dpi)) in
     may_raise (page_fault w page_num FromBytes) ;;
     let image := (Z.of_N (fst pix), Z.of_N (snd pix)) in
     let* image :=
       if Z.max (fst image) (snd image) >? max_image_size
       then thumbnail (page_fault w page_num Resample) image (max_image_size, max_image_size)
       else ret image in
     let image_path := page_path temp_folder page_num in
     may_raise (page_fault w page_num Save) ;;
     modify (set_files (insert image_path (Jpeg (fst image) (snd image) quality))) ;;
     modify (set_image_paths (fun l => l ++ [image_path])) ;;
     logger DEBUG ("Generated compressed image for page " +:+ pretty (page_num + 1)%nat))
    (fun page_error =>
       logger ERROR ("Error processing page " +:+ pretty (page_num + 1)%nat
                     +:+ ": " +:+ page_error) ;;
       logger ERROR (format_exc w page_error)).

(** The [finally] block (lines 124-131). *)
Definition close_document (w : World) : M unit :=
  let* s := get in
  match pdf_document s with
  | Some (h, doc) =>
      if doc_truth doc then
        try_except
          (fitz_close w h ;;
           logger INFO "PDF document closed successfully")
          (fun close_error =>
             logger ERROR ("Error closing PDF document: " +:+ close_error))
      else ret tt
  | None => ret tt
  end.

(** [convert_pdf_to_images(uploaded_file, temp_folder, logger, dpi,
    max_image_size, quality)] (lines 50-131); [uploaded_file] is the buffer
    [uploaded_file.getbuffer()] gives. *)
Definition convert_pdf_to_images (w : World) (uploaded_file : list Byte.byte)
    (temp_folder : string) (dpi max_image_size quality : Z) : M (list string * nat) :=
  modify (set_pdf_document None) ;;
  try_finally
    (try_except
       (makedirs w temp_folder ;;
        let pdf_path := path_join temp_folder "uploaded.pdf" in
        open_wb_write w pdf_path uploaded_file ;;
        logger INFO ("PDF saved to " +:+ pdf_path) ;;
        let* total_pages :=
          try_except
            (let* hd := fitz_open w pdf_path in
             modify (set_pdf_document (Some hd)) ;;
             let total_pages := page_count (snd hd) in
             logger INFO ("Opened PDF with " +:+ pretty total_pages +:+ " pages") ;;
             ret total_pages)
            (fun open_error =>
               logger ERROR ("Error opening PDF document: " +:+ open_error) ;;
               logger ERROR (format_exc w open_error) ;;
               raise open_error) in
        modify (set_image_paths (fun _ => [])) ;;
        for_each (seq 0 total_pages)
          (process_page w temp_folder dpi max_image_size quality) ;;
        let* s := get in
        ret (image_paths s, total_pages))
       (fun e =>
          logger ERROR ("Error in convert_pdf_to_images: " +:+ e) ;;
          logger ERROR (format_exc w e) ;;
          raise e))
    (close_document w).

(** [main], lines 217-219: the page shown for [page_number] is
    [image_paths[page_number - 1]]; a negative index counts from the end
    and an index out of range raises [IndexError]. *)
Definition selected_page (image_paths : list string) (page_number : Z) : result string :=
  let i := page_number - 1 in
  let n := Z.of_nat (length image_paths) in
  let j := if i <? 0 then i + n else i in
  if (j <? 0) || (n <=? j) then Raise "list index out of range"
  else match image_paths !! Z.to_nat j with
       | Some p => Ok p
       | None => Raise "list index out of range"
       end.

(** A state before the first call: an empty file system, nothing logged,
    no handle. *)
Definition initial_state : state := mkState ∅ ∅ [] [] None [].

(** ** What one page comes to *)

(** The size [image.thumbnail] leaves, read off a run of [thumbnail]: the
    call neither reads nor changes the state. *)
Definition thumbnail_size (fault : option exn) (image size : Z * Z) : result (Z * Z) :=
  fst (thumbnail fault image size initial_state).

(** The size of the pixmap of a page at the scale of [dpi], which is the
    size of the image made from it (lines 97 and 100). *)
Definition rendered (doc : Document) (dpi : Z) (page_num : nat) : Z * Z :=
  let pix := pixmap_size doc page_num (fitz_Matrix (dpi_scale dpi) (dpi_scale dpi)) in
  (Z.of_N (fst pix), Z.of_N (snd pix)).

(** The size of the image of a page that reaches [image.save], or the
    exception that ends its iteration. *)
Definition page_outcome (w : World) (doc : Document) (dpi max_image_size : Z)
    (page_num : nat) : result (Z * Z) :=
  match page_fault w page_num LoadPage with Some e => Raise e | None =>
  match page_fault w page_num GetPixmap with Some e => Raise e | None =>
  match page_fault w page_num FromBytes with Some e => Raise e | None =>
  let pix := rendered doc dpi page_num in
  match (if Z.max (fst pix) (snd pix) >? max_image_size
         then thumbnail_size (page_fault w page_num Resample) pix
                (max_image_size, max_image_size)
         else Ok pix) with
  | Raise e => Raise e
  | Ok image =>
      match page_fault w page_num Save with
      | Some e => Raise e
      | None => Ok image
      end
  end end end end.

Definition page_ok (w : World) (doc : Document) (dpi max_image_size : Z)
    (page_num : nat) : bool :=
  match page_outcome w doc dpi max_image_size page_num with
  | Ok _ => true
  | Raise _ => false
  end.

Definition page_error_message (page_num : nat) (e : exn) : string :=
  "Error processing page " +:+ pretty (page_num + 1)%nat +:+ ": " +:+ e.

(** The state after the iteration for [page_num]. *)
Definition page_effect (w : World) (doc : Document) (temp_folder : string)
    (dpi max_image_size quality : Z) (s : state) (page_num : nat) : state :=
  match page_outcome w doc dpi max_image_size page_num with
  | Ok image =>
      set_log (fun l => l ++ [(DEBUG, "Generated compressed image for page "
                                        +:+ pretty (page_num + 1)%nat)])
        (set_image_paths (fun l => l ++ [page_path temp_folder page_num])
           (set_files (insert (page_path temp_folder page_num)
                         (Jpeg (fst image) (snd image) quality)) s))
  | Raise e =>
      set_log (fun l => l ++ [(ERROR, format_exc w e)])
        (set_log (fun l => l ++ [(ERROR, page_error_message page_num e)]) s)
  end.

(** The conditions under which the document opens, and under which the
    call gets as far as [fitz.open] and that fails. *)
Definition upload_path (temp_folder : string) : string :=
  path_join temp_folder "uploaded.pdf".

Definition upload_written (w : World) (temp_folder : string) : Prop :=
  makedirs_fault w temp_folder = None ∧
  open_wb_fault w (upload_path temp_folder) = None ∧
  write_fault w (upload_path temp_folder) = None.

Definition opens (w : World) (uploaded_file : list Byte.byte) (temp_folder : string)
    (doc : Document) : Prop :=
  upload_written w temp_folder ∧ fitz_parse w uploaded_file = Ok doc.

Definition open_fails (w : World) (uploaded_file : list Byte.byte) (temp_folder : string)
    (e : exn) : Prop :=
  upload_written w temp_folder ∧ fitz_parse w uploaded_file = Raise e.

(** The state when the loop over the pages starts. *)
Definition opened_state (uploaded_file : list Byte.byte) (temp_folder : string)
    (doc : Document) (s : state) : state :=
  mkState ({[temp_folder]} ∪ dirs s)
    (<[upload_path temp_folder := Raw uploaded_file]> (files s))
    (log s ++ [(INFO, "PDF saved to " +:+ upload_path temp_folder);
               (INFO, "Opened PDF with " +:+ pretty (page_count doc) +:+ " pages")])
    (handles s ++ [Open])
    (Some (length (handles s), doc))
    [].

(** What the loop over the pages [l] leaves at the path [p], when [acc] was
    there before: the JPEG of the last page of [l] that comes through and
    is saved at [p]. *)
Definition written_from (w : World) (doc : Document) (temp_folder : string)
    (dpi max_image_size quality : Z) (acc : option file) (l : list nat) (p : string)
    : option file :=
  fold_left
    (λ acc page_num,
       match page_outcome w doc dpi max_image_size page_num with
       | Ok image =>
           if decide (page_path temp_folder page_num = p)
           then Some (Jpeg (fst image) (snd image) quality)
           else acc
       | Raise _ => acc
       end)
    l acc.

(** The exception the call ends in, if any: that of the first of the four
    steps before the loop that raises. *)
Definition abort_cause (w : World) (uploaded_file : list Byte.byte)
    (temp_folder : string) : option exn :=
  match makedirs_fault w temp_folder with Some e => Some e | None =>
  match open_wb_fault w (upload_path temp_folder) with Some e => Some e | None =>
  match write_fault w (upload_path temp_folder) with Some e => Some e | None =>
  match fitz_parse w uploaded_file with
  | Raise e => Some e
  | Ok _ => None
  end end end end.

(** The world [w] with [doc] for the document every upload parses to. *)
Definition with_document (w : World) (doc : Document) : World :=
  mkWorld (makedirs_fault w) (open_wb_fault w) (write_fault w) (λ _, Ok doc)
    (page_fault w) (close_fault w) (format_exc w).

(** ** Sample inputs *)

(** A document of [n] US Letter pages (612 by 792 points). *)
Definition letter_doc (n : nat) : Document :=
  mkDocument n
    (λ _ mat, (Z.to_N (Qfloor (612 * mat_a mat)), Z.to_N (Qfloor (792 * mat_d mat)))).

(** A document that renders like [letter_doc] at the scale 2 and to a
    single pixel at every other scale. *)
Definition scale2_doc (n : nat) : Document :=
  mkDocument n
    (λ _ mat, if Qeq_bool (mat_a mat) 2 && Qeq_bool (mat_d mat) 2
              then (1224%N, 1584%N) else (1%N, 1%N)).

(** A world in which the disk works, an upload without bytes does not
    open, every other upload is [doc], and the pages fail as [faults]
    says. *)
Definition sample_world (doc : Document) (faults : nat → page_step → option exn) : World :=
  mkWorld (λ _, None) (λ _, None) (λ _, None)
    (λ data, match data with [] => Raise "Cannot open empty file" | _ => Ok doc end)
    faults None (λ e, "Traceback (most recent call last): " +:+ e).

Definition no_faults : nat → page_step → option exn := λ _ _, None.

(** The page with the index [k] has a broken content stream. *)
Definition broken_page (k : nat) : nat → page_step → option exn :=
  λ page_num step,
    match step with
    | GetPixmap => if (page_num =? k)%nat then Some "cannot render page" else None
    | _ => None
    end.

Definition sample_pdf : list Byte.byte := [Byte.x25; Byte.x50; Byte.x44; Byte.x46].

(** ** The log of a call *)

(** The records the iteration for [page_num] sends to the logger (lines
    113 and 115-116). *)
Definition page_records (w : World) (doc : Document) (dpi max_image_size : Z)
    (page_num : nat) : list (level * string) :=
  match page_outcome w doc dpi max_image_size page_num with
  | Ok _ =>
      [(DEBUG, "Generated compressed image for page " +:+ pretty (page_num + 1)%nat)]
  | Raise e =>
      [(ERROR, page_error_message page_num e); (ERROR, format_exc w e)]
  end.

(** The records of the [finally] block (lines 126-131) for the document
    [doc]. *)
Definition closing_records (w : World) (doc : Document) : list (level * string) :=
  if doc_truth doc then
    match close_fault w with
    | None => [(INFO, "PDF document closed successfully")]
    | Some e => [(ERROR, "Error closing PDF document: " +:+ e)]
    end
  else [].

(** ** [setup_logging] *)





(** The path of the log file (line 23). *)
Definition log_path (temp_folder : string) : string :=
  path_join temp_folder "pdf_flipbook.log".



(** ** The viewer: [main] *)

(** [st.button(label, disabled=...)]: true in the run that follows a click,
    and a disabled button takes no click. *)
Definition st_button (clicked disabled : bool) : bool := clicked && negb disabled.

(** The two buttons and the page navigation (lines 199-213): the value of
    [st.session_state.page_number] afterwards. *)
Definition navigation (page_number total_pages : Z) (prev_clicked next_clicked : bool) : Z :=
  let prev_button := st_button prev_clicked (page_number <=? 1) in
  let next_button := st_button next_clicked (page_number >=? total_pages) in
  if prev_button && (page_number >? 1) then page_number - 1
  else if next_button && (page_number <? total_pages) then page_number + 1
  else page_number.

(** [Image.open(path)], on the size of the image: a JPEG that [image.save]
    wrote has the size it was saved with; what other bytes decode to is
    [decode]'s to say. *)
Definition image_open (decode : list Byte.byte → result (Z * Z)) (path : string)
    : M (Z * Z) :=
  let* s := get in
  match files s !! path with
  | Some (Jpeg width height _) => ret (width, height)
  | Some (Raw data) =>
      match decode data with
      | Ok size => ret size
      | Raise e => raise e
      end
  | None => raise ("[Errno 2] No such file or directory: " +:+ path)
  end.

(** The loop that makes the thumbnails (lines 236-244), on the sizes of
    the thumbnails; [resample_fault] says for which path the resize inside
    [thumb.thumbnail((150, 200))] raises. *)
Fixpoint make_thumbnails (w : World) (decode : list Byte.byte → result (Z * Z))
    (resample_fault : string → option exn) (image_paths : list string)
    (thumbnails : list (Z * Z)) : M (list (Z * Z)) :=
  match image_paths with
  | [] => ret thumbnails
  | path :: rest =>
      let* thumbnails :=
        try_except
          (let* thumb := image_open decode path in
           let* thumb := thumbnail (resample_fault path) thumb (150, 200) in
           ret (thumbnails ++ [thumb]))
          (fun thumb_error =>
             logger ERROR ("Error creating thumbnail: " +:+ thumb_error) ;;
             logger ERROR (format_exc w thumb_error) ;;
             ret thumbnails) in
      make_thumbnails w decode resample_fault rest thumbnails
  end.

(** A directory in use: a log file, and a page image that an earlier,
    longer document left. *)
Definition used_state : state :=
  mkState {["/tmp/out"]}
    (<["/tmp/out/pdf_flipbook.log" := Raw [Byte.x32; Byte.x30]]>
       (<["/tmp/out/page_5.jpg" := Jpeg 386 500 85]> ∅))
    [] [] None [].


(** A world like [sample_world] in which [close] raises. *)
Definition close_fault_world (doc : Document) : World :=
  mkWorld (λ _, None) (λ _, None) (λ _, None) (λ _, Ok doc) no_faults
    (Some "document closed") (λ e, "Traceback (most recent call last): " +:+ e).

(** ** Paths *)

Lemma string_length_app (s1 s2 : string) :
  String.length (s1 +:+ s2) = (String.length s1 + String.length s2)%nat.
Proof. induction s1 as [|c s1 IH]; simpl; [done|]. by rewrite IH. Qed.

Lemma string_app_assoc (s1 s2 s3 : string) :
  s1 +:+ s2 +:+ s3 = (s1 +:+ s2) +:+ s3.
Proof.
  induction s1 as [|c s1 IH]; [done|].
  change (String c (s1 +:+ s2 +:+ s3) = String c ((s1 +:+ s2) +:+ s3)).
  by rewrite IH.
Qed.

Lemma string_app_inj_r (t s1 s2 : string) : s1 +:+ t = s2 +:+ t → s1 = s2.
Proof.
  revert s2. induction s1 as [|c s1 IH]; intros [|c2 s2] H.
  - done.
  - apply (f_equal String.length) in H.
    rewrite !string_length_app in H. simpl in H. lia.
  - apply (f_equal String.length) in H.
    rewrite !string_length_app in H. simpl in H. lia.
  - change (String c (s1 +:+ t) = String c2 (s2 +:+ t)) in H.
    injection H as -> H. f_equal. by apply IH.
Qed.

Lemma page_name_inj (a b : nat) : page_name a = page_name b → a = b.
Proof.
  unfold page_name. intros H.
  apply (inj (String.app "page_")) in H.
  apply string_app_inj_r in H.
  apply (inj pretty) in H. lia.
Qed.

Lemma page_name_unfold k :
  page_name k = String "p" ("age_" +:+ pretty (k + 1)%nat +:+ ".jpg").
Proof. reflexivity. Qed.

(** [os.path.join] with a name that does not start with a separator puts
    the same prefix in front of it. *)
Lemma path_join_relative (a b : string) :
  starts_with_sep b = false →
  path_join a b
  = (if bool_decide (a = "") || ends_with_sep a then a else a +:+ "/") +:+ b.
Proof.
  intros Hb. unfold path_join. rewrite Hb.
  destruct (bool_decide (a = "") || ends_with_sep a); [done|].
  apply string_app_assoc.
Qed.

Lemma page_path_unfold tf k :
  page_path tf k
  = (if bool_decide (tf = "") || ends_with_sep tf then tf else tf +:+ "/")
    +:+ page_name k.
Proof. unfold page_path. by apply path_join_relative. Qed.

Lemma upload_path_unfold tf :
  upload_path tf
  = (if bool_decide (tf = "") || ends_with_sep tf then tf else tf +:+ "/")
    +:+ "uploaded.pdf".
Proof. unfold upload_path. by apply path_join_relative. Qed.

Lemma page_path_inj tf (a b : nat) : page_path tf a = page_path tf b → a = b.
Proof.
  rewrite !page_path_unfold. intros H.
  apply (inj (String.app _)) in H. by apply page_name_inj.
Qed.

Lemma page_path_not_upload tf k : page_path tf k ≠ upload_path tf.
Proof.
  rewrite page_path_unfold, upload_path_unfold. intros H.
  apply (inj (String.app _)) in H. rewrite page_name_unfold in H. discriminate.
Qed.

(** ** Running the program *)

Lemma thumbnail_run fault image size s :
  thumbnail fault image size s = (thumbnail_size fault image size, s).
Proof.
  unfold thumbnail_size, thumbnail, preserve_aspect_ratio, resize, py_div,
    bind, ret, raise, may_raise.
  destruct image as [iw ih], size as [x y].
  repeat (match goal with
          | |- context [if ?b then _ else _] => destruct b
          | |- context [match ?o with Some _ => _ | None => _ end] => destruct o
          end; simpl; try reflexivity).
Qed.

(** ** The loop over the pages *)

Section PageLoop.

Context (w : World) (doc : Document) (tf : string) (dpi m q : Z).

Lemma process_page_run k s h :
  pdf_document s = Some (h, doc) →
  process_page w tf dpi m q k s = (Ok tt, page_effect w doc tf dpi m q s k).
Proof.
  intros Hdoc.
  unfold process_page, page_effect, page_outcome, rendered, page_error_message,
    try_except, bind, get, logger, modify, ret.
  rewrite Hdoc. simpl.
  destruct (page_fault w k LoadPage); [reflexivity|]. simpl.
  destruct (page_fault w k GetPixmap); [reflexivity|]. simpl.
  destruct (page_fault w k FromBytes); [reflexivity|]. simpl.
  destruct (Z.max _ _ >? m).
  - rewrite thumbnail_run.
    destruct (thumbnail_size _ _ _); [|reflexivity].
    destruct (page_fault w k Save); reflexivity.
  - unfold ret. destruct (page_fault w k Save); reflexivity.
Qed.

Lemma page_effect_pdf_document s k :
  pdf_document (page_effect w doc tf dpi m q s k) = pdf_document s.
Proof. unfold page_effect. destruct (page_outcome _ _ _ _ _); reflexivity. Qed.

Lemma for_each_pages_run h l : ∀ s,
  pdf_document s = Some (h, doc) →
  for_each l (process_page w tf dpi m q) s
  = (Ok tt, fold_left (page_effect w doc tf dpi m q) l s).
Proof.
  induction l as [|k l IH]; intros s Hdoc; [reflexivity|].
  simpl. unfold bind at 1.
  rewrite (process_page_run _ _ _ Hdoc).
  apply IH. rewrite page_effect_pdf_document. exact Hdoc.
Qed.

(** The loop changes neither the directories nor the handles, and keeps
    the local [pdf_document]. *)
Lemma pages_frame l : ∀ s,
  let s' := fold_left (page_effect w doc tf dpi m q) l s in
  dirs s' = dirs s ∧ handles s' = handles s ∧ pdf_document s' = pdf_document s.
Proof.
  induction l as [|k l IH]; intros s; [done|].
  simpl. destruct (IH (page_effect w doc tf dpi m q s k)) as (-> & -> & ->).
  unfold page_effect. destruct (page_outcome _ _ _ _ _); done.
Qed.

(** The paths the loop appends: those of the pages that come through, in
    the order of the pages. *)
Lemma pages_image_paths l : ∀ s,
  image_paths (fold_left (page_effect w doc tf dpi m q) l s)
  = image_paths s ++ (page_path tf <$> filter (λ k, page_ok w doc dpi m k = true) l).
Proof.
  induction l as [|k l IH]; intros s; simpl.
  - by rewrite app_nil_r.
  - rewrite IH, filter_cons.
    assert (Hk : page_ok w doc dpi m k
                 = match page_outcome w doc dpi m k with Ok _ => true | Raise _ => false end)
      by reflexivity.
    unfold page_effect.
    destruct (page_outcome w doc dpi m k) as [img|e]; simpl.
    + rewrite decide_True by done. by rewrite <- app_assoc.
    + rewrite decide_False by (rewrite Hk; done). done.
Qed.

(** The files the loop writes. *)

Lemma pages_files_lookup l p : ∀ s,
  files (fold_left (page_effect w doc tf dpi m q) l s) !! p
  = written_from w doc tf dpi m q (files s !! p) l p.
Proof.
  unfold written_from.
  induction l as [|k l IH]; intros s; [done|].
  simpl. rewrite IH. f_equal.
  unfold page_effect. destruct (page_outcome w doc dpi m k) as [img|e]; [|done].
  simpl. rewrite lookup_insert. by destruct (decide _).
Qed.

Lemma written_from_other l p : ∀ acc,
  (∀ k, k ∈ l → page_ok w doc dpi m k = true → page_path tf k ≠ p) →
  written_from w doc tf dpi m q acc l p = acc.
Proof.
  unfold written_from.
  induction l as [|k l IH]; intros acc Hp; [done|].
  simpl. rewrite IH.
  - pose proof (Hp k) as Hk. unfold page_ok in Hk.
    destruct (page_outcome w doc dpi m k); [|done].
    rewrite decide_False; [done|]. apply Hk; [by left|done].
  - intros j Hj. apply Hp. by right.
Qed.

Lemma written_from_page l k img : ∀ acc,
  page_outcome w doc dpi m k = Ok img →
  acc = Some (Jpeg (fst img) (snd img) q) ∨ k ∈ l →
  written_from w doc tf dpi m q acc l (page_path tf k)
  = Some (Jpeg (fst img) (snd img) q).
Proof.
  unfold written_from. intros acc Hk.
  revert acc. induction l as [|j l IH]; intros acc Hin; simpl.
  - destruct Hin as [->|Hin]; [done|]. by apply not_elem_of_nil in Hin.
  - apply IH.
    destruct (decide (page_path tf j = page_path tf k)) as [Heq|Hne].
    + apply page_path_inj in Heq as ->. rewrite Hk. by left.
    + destruct Hin as [->|Hin].
      * left. by destruct (page_outcome w doc dpi m j).
      * apply elem_of_cons in Hin as [->|Hin]; [done|]. by right.
Qed.

Lemma written_from_last l p : ∀ acc,
  written_from w doc tf dpi m q acc l p
  = match written_from w doc tf dpi m q None l p with
    | Some f => Some f
    | None => acc
    end.
Proof.
  unfold written_from.
  induction l as [|k l IH]; intros acc; [done|].
  simpl. rewrite IH. symmetry. rewrite IH. symmetry.
  destruct (fold_left _ l None); [done|].
  destruct (page_outcome w doc dpi m k); [|done].
  by destruct (decide _).
Qed.

(** Running the loop a second time over what it wrote changes nothing. *)
Lemma written_from_idemp l p acc :
  written_from w doc tf dpi m q (written_from w doc tf dpi m q acc l p) l p
  = written_from w doc tf dpi m q acc l p.
Proof.
  rewrite (written_from_last l p (written_from w doc tf dpi m q acc l p)).
  rewrite (written_from_last l p acc).
  by destruct (written_from w doc tf dpi m q None l p).
Qed.

(** The log of the loop. *)

Lemma page_effect_log_mono s k x :
  x ∈ log s → x ∈ log (page_effect w doc tf dpi m q s k).
Proof.
  intros Hx. unfold page_effect.
  destruct (page_outcome w doc dpi m k); simpl; rewrite ?elem_of_app; auto.
Qed.

Lemma pages_log_mono l x : ∀ s,
  x ∈ log s → x ∈ log (fold_left (page_effect w doc tf dpi m q) l s).
Proof.
  induction l as [|k l IH]; intros s Hx; [done|].
  simpl. apply IH. by apply page_effect_log_mono.
Qed.

Lemma pages_log_error l k e : ∀ s,
  k ∈ l → page_outcome w doc dpi m k = Raise e →
  (ERROR, page_error_message k e) ∈ log (fold_left (page_effect w doc tf dpi m q) l s).
Proof.
  induction l as [|j l IH]; intros s Hin Hk.
  - by apply not_elem_of_nil in Hin.
  - simpl. apply elem_of_cons in Hin as [<-|Hin]; [|by apply IH].
    apply pages_log_mono. unfold page_effect. rewrite Hk. simpl.
    rewrite !elem_of_app. left. right. by left.
Qed.

End PageLoop.

(** ** The call as a whole *)

(** The [finally] block never raises, and touches only the handles and
    the log, to which it can only add. *)
Lemma close_document_run w s :
  ∃ s', close_document w s = (Ok tt, s') ∧
        dirs s' = dirs s ∧ files s' = files s ∧ image_paths s' = image_paths s ∧
        pdf_document s' = pdf_document s ∧ ∃ more, log s' = log s ++ more.
Proof.
  unfold close_document, bind, get, try_except, fitz_close, modify, logger,
    may_raise, ret, raise.
  destruct (pdf_document s) as [[h doc]|] eqn:Hd.
  - destruct (doc_truth doc).
    + destruct (close_fault w); simpl; eexists; repeat split; try done; by eexists.
    + eexists; repeat split; try done. exists []. by rewrite app_nil_r.
  - eexists; repeat split; try done. exists []. by rewrite app_nil_r.
Qed.

(** The [finally] block on a document with pages: the handle is closed,
    and an error of [close] goes to the log. *)
Lemma close_document_truthy w s h doc :
  pdf_document s = Some (h, doc) → doc_truth doc = true →
  handles (snd (close_document w s)) = <[h := Closed]> (handles s) ∧
  ∀ e, close_fault w = Some e →
       (ERROR, "Error closing PDF document: " +:+ e) ∈ log (snd (close_document w s)).
Proof.
  intros Hd Ht.
  unfold close_document, bind, get, try_except, fitz_close, modify, logger,
    may_raise, ret, raise.
  rewrite Hd, Ht.
  destruct (close_fault w) as [e'|]; simpl; (split; [done|]); [|done].
  intros e [= <-]. apply elem_of_app. right. by left.
Qed.

(** The [finally] block on a document without pages does nothing. *)
Lemma close_document_falsy w s h doc :
  pdf_document s = Some (h, doc) → doc_truth doc = false →
  close_document w s = (Ok tt, s).
Proof.
  intros Hd Ht. unfold close_document, bind, get, ret. by rewrite Hd, Ht.
Qed.

(** The call on a document that opens. *)
Lemma convert_opens_run w bytes tf dpi m q s doc :
  opens w bytes tf doc →
  let s2 := fold_left (page_effect w doc tf dpi m q) (seq 0 (page_count doc))
              (opened_state bytes tf doc s) in
  convert_pdf_to_images w bytes tf dpi m q s
  = (Ok (image_paths s2, page_count doc), snd (close_document w s2)).
Proof.
  intros [(Hmk & Hop & Hwr) Hparse] s2.
  unfold convert_pdf_to_images.
  unfold bind at 1. unfold modify at 1.
  unfold try_finally.
  match goal with
  | |- (let (r, s') := ?body ?st in _) = _ =>
      assert (body st = (Ok (image_paths s2, page_count doc), s2)) as ->
  end.
  { unfold makedirs, open_wb_write. fold (upload_path tf).
    rewrite Hmk, Hop, Hwr.
    cbv [bind may_raise ret modify logger try_except fitz_open get raise].
    cbn [files set_files set_dirs set_log set_pdf_document].
    rewrite lookup_insert_eq, Hparse.
    cbn [snd page_count].
    erewrite for_each_pages_run by reflexivity.
    assert (Hs : ∀ s1, s1 = opened_state bytes tf doc s →
              fold_left (page_effect w doc tf dpi m q) (seq 0 (page_count doc)) s1 = s2)
      by (by intros ? ->).
    rewrite Hs; [reflexivity|].
    unfold opened_state, set_image_paths, set_log, set_pdf_document, set_handles,
      set_files, set_dirs. simpl.
    by rewrite insert_insert_eq, <- app_assoc. }
  destruct (close_document_run w s2) as (s3 & -> & _). reflexivity.
Qed.

(** The four ways the call ends in an exception. *)
Lemma convert_makedirs_fault_run w bytes tf dpi m q s e :
  makedirs_fault w tf = Some e →
  let r := convert_pdf_to_images w bytes tf dpi m q s in
  fst r = Raise e ∧ dirs (snd r) = dirs s ∧ files (snd r) = files s ∧
  handles (snd r) = handles s.
Proof.
  intros Hmk. unfold convert_pdf_to_images, makedirs, close_document.
  rewrite Hmk.
  cbv [bind may_raise ret modify logger try_except try_finally get raise].
  simpl. done.
Qed.

Lemma convert_open_wb_fault_run w bytes tf dpi m q s e :
  makedirs_fault w tf = None →
  open_wb_fault w (upload_path tf) = Some e →
  let r := convert_pdf_to_images w bytes tf dpi m q s in
  fst r = Raise e ∧ dirs (snd r) = {[tf]} ∪ dirs s ∧ files (snd r) = files s ∧
  handles (snd r) = handles s.
Proof.
  intros Hmk Hop. unfold convert_pdf_to_images, makedirs, open_wb_write, close_document.
  fold (upload_path tf). rewrite Hmk, Hop.
  cbv [bind may_raise ret modify logger try_except try_finally get raise].
  simpl. done.
Qed.

Lemma convert_write_fault_run w bytes tf dpi m q s e :
  makedirs_fault w tf = None →
  open_wb_fault w (upload_path tf) = None →
  write_fault w (upload_path tf) = Some e →
  let r := convert_pdf_to_images w bytes tf dpi m q s in
  fst r = Raise e ∧ dirs (snd r) = {[tf]} ∪ dirs s ∧
  files (snd r) = <[upload_path tf := Raw []]> (files s) ∧
  handles (snd r) = handles s.
Proof.
  intros Hmk Hop Hwr.
  unfold convert_pdf_to_images, makedirs, open_wb_write, close_document.
  fold (upload_path tf). rewrite Hmk, Hop, Hwr.
  cbv [bind may_raise ret modify logger try_except try_finally get raise].
  simpl. done.
Qed.

Lemma convert_open_fails_run w bytes tf dpi m q s e :
  open_fails w bytes tf e →
  let r := convert_pdf_to_images w bytes tf dpi m q s in
  fst r = Raise e ∧ dirs (snd r) = {[tf]} ∪ dirs s ∧
  files (snd r) = <[upload_path tf := Raw bytes]> (files s) ∧
  handles (snd r) = handles s ∧
  log (snd r) = log s ++ [(INFO, "PDF saved to " +:+ upload_path tf);
                          (ERROR, "Error opening PDF document: " +:+ e);
                          (ERROR, format_exc w e);
                          (ERROR, "Error in convert_pdf_to_images: " +:+ e);
                          (ERROR, format_exc w e)].
Proof.
  intros [(Hmk & Hop & Hwr) Hparse].
  unfold convert_pdf_to_images, makedirs, open_wb_write, close_document.
  fold (upload_path tf). rewrite Hmk, Hop, Hwr.
  cbv [bind may_raise ret modify logger try_except try_finally fitz_open get raise].
  cbn [files set_files set_dirs set_log set_pdf_document].
  rewrite lookup_insert_eq, Hparse. simpl.
  rewrite insert_insert_eq. repeat split; try done.
  by rewrite <- !app_assoc.
Qed.

(** ** The size [image.thumbnail] leaves *)

Lemma round_aspect_cases number key :
  1 ≤ round_aspect number key ∧
  (round_aspect number key = 1 ∨
   (Qabs (inject_Z (round_aspect number key) - number) < 1)%Q).
Proof.
  unfold round_aspect.
  set (pick := if Qle_bool _ _ then _ else _).
  assert (Hpick : (Qabs (inject_Z pick - number) < 1)%Q).
  { pose proof (Qfloor_le number) as H1. pose proof (Qlt_floor number) as H2.
    pose proof (Qle_ceiling number) as H3. pose proof (Qceiling_lt number) as H4.
    rewrite inject_Z_plus in H2. unfold Z.sub in H4. rewrite inject_Z_plus in H4.
    change (inject_Z 1) with 1%Q in H2.
    change (inject_Z (Z.opp 1)) with (- (1))%Q in H4.
    apply Qabs_Qlt_condition. subst pick.
    destruct (Qle_bool _ _).
    - revert H1 H2. generalize (inject_Z (Qfloor number)). intros f H1 H2.
      split; lra.
    - revert H3 H4. generalize (inject_Z (Qceiling number)). intros c H3 H4.
      split; lra. }
  split; [lia|].
  destruct (Z.max_spec pick 1) as [[? ->]|[? ->]]; [by left|by right].
Qed.

Lemma round_aspect_le number key m :
  1 ≤ m → (number <= inject_Z m)%Q → round_aspect number key ≤ m.
Proof.
  intros Hm Hle. unfold round_aspect.
  pose proof (Qle_floor_ceiling number) as Hfc. rewrite <- Zle_Qle in Hfc.
  pose proof (Qceiling_resp_le _ _ Hle) as Hc. rewrite Qceiling_Z in Hc.
  destruct (Qle_bool _ _); lia.
Qed.

Lemma aspect_le_one (iw ih : Z) :
  0 < ih → ((inject_Z iw / inject_Z ih <= 1)%Q ↔ iw ≤ ih).
Proof.
  intros Hh.
  assert (Hq : (0 < inject_Z ih)%Q) by (rewrite <- (Zlt_Qlt 0); lia).
  rewrite Zle_Qle. split; intros H.
  - apply Qnot_lt_le. intros Hlt.
    assert (Hlt' : (1 * inject_Z ih < inject_Z iw)%Q) by lra.
    apply (Qlt_shift_div_l _ _ _ Hq) in Hlt'. lra.
  - apply Qle_shift_div_r; [done|]. lra.
Qed.

Lemma thumbnail_size_spec fault (iw ih m x y : Z) :
  0 ≤ iw → 0 ≤ ih → Z.max iw ih > m →
  thumbnail_size fault (iw, ih) (m, m) = Ok (x, y) →
  0 < ih ∧ Z.max x y = m ∧ 1 ≤ x ∧ 1 ≤ y ∧
  (iw ≤ ih →
     y = m ∧
     (x = 1 ∨ (Qabs (inject_Z x - inject_Z m * (inject_Z iw / inject_Z ih)) < 1)%Q)) ∧
  (ih < iw →
     x = m ∧
     (y = 1 ∨ (Qabs (inject_Z y - inject_Z m / (inject_Z iw / inject_Z ih)) < 1)%Q)).
Proof.
  intros Hw Hh Hmax.
  unfold thumbnail_size, thumbnail, preserve_aspect_ratio, py_div, bind, ret, raise.
  destruct ((m >=? iw) && (m >=? ih)) eqn:Hfit; [lia|].
  destruct (Qeq_bool (inject_Z ih) 0) eqn:Hh0; [done|].
  destruct (Qeq_bool (inject_Z m) 0) eqn:Hm0; [done|].
  apply Qeq_bool_neq in Hh0, Hm0.
  assert (Hhpos : 0 < ih).
  { destruct (decide (ih = 0)) as [->|]; [by destruct Hh0|lia]. }
  assert (Hmne : m ≠ 0) by (by intros ->; destruct Hm0).
  assert (Hr : (inject_Z m / inject_Z m == 1)%Q) by (by apply Qmult_inv_r).
  set (aspect := (inject_Z iw / inject_Z ih)%Q).
  pose proof (aspect_le_one iw ih Hhpos) as Hasp. fold aspect in Hasp.
  destruct (Qle_bool aspect (inject_Z m / inject_Z m)) eqn:Hbranch.
  - apply Qle_bool_iff in Hbranch. rewrite Hr in Hbranch.
    apply Hasp in Hbranch.
    set (key := λ n : Z, _). set (number := (inject_Z m * aspect)%Q).
    pose proof (round_aspect_cases number key) as [H1 Hround].
    destruct (bool_decide _) eqn:Heq.
    + apply bool_decide_eq_true in Heq. injection Heq as Heq1 Heq2. lia.
    + unfold resize, bind, may_raise, ret, raise. cbn [fst snd].
      destruct ((round_aspect number key <=? 0) || (m <=? 0)) eqn:Hpos; [done|].
      apply orb_false_iff in Hpos as [_ Hmpos]. apply Z.leb_gt in Hmpos.
      intros Hres.
      assert (Hxy : x = round_aspect number key ∧ y = m)
        by (destruct fault; simpl in Hres; [done|]; by injection Hres as <- <-).
      destruct Hxy as [-> ->].
      assert (round_aspect number key ≤ m).
      { apply round_aspect_le; [lia|]. subst number.
        assert (Hm' : (0 < inject_Z m)%Q) by (rewrite <- (Zlt_Qlt 0); lia).
        apply Hasp in Hbranch. nra. }
      repeat split; try lia; try done.
  - assert (Hgt : (1 < aspect)%Q).
    { apply Qnot_le_lt. intros Hle. rewrite <- Hr in Hle.
      apply Qle_bool_iff in Hle. congruence. }
    assert (Hlt : ih < iw).
    { destruct (decide (iw ≤ ih)) as [Hle|]; [|lia]. apply Hasp in Hle. lra. }
    destruct (Qeq_bool aspect 0) eqn:Ha0.
    { apply Qeq_bool_iff in Ha0. rewrite Ha0 in Hgt. lra. }
    set (key := λ n : Z, _). set (number := (inject_Z m / aspect)%Q).
    pose proof (round_aspect_cases number key) as [H1 Hround].
    destruct (bool_decide _) eqn:Heq.
    + apply bool_decide_eq_true in Heq. injection Heq as Heq1 Heq2. lia.
    + unfold resize, bind, may_raise, ret, raise. cbn [fst snd].
      destruct ((m <=? 0) || (round_aspect number key <=? 0)) eqn:Hpos; [done|].
      apply orb_false_iff in Hpos as [Hmpos _]. apply Z.leb_gt in Hmpos.
      intros Hres.
      assert (Hxy : x = m ∧ y = round_aspect number key)
        by (destruct fault; simpl in Hres; [done|]; by injection Hres as <- <-).
      destruct Hxy as [-> ->].
      assert (round_aspect number key ≤ m).
      { apply round_aspect_le; [lia|]. subst number.
        assert (Hm' : (0 < inject_Z m)%Q) by (rewrite <- (Zlt_Qlt 0); lia).
        apply Qle_shift_div_r; [lra|]. nra. }
      repeat split; try lia; try done.
Qed.

(** The value [round_aspect] takes before it is raised to 1: the floor or
    the ceiling of [number], less than one away from it. *)
Lemma round_aspect_pick number key :
  ∃ pick, round_aspect number key = Z.max pick 1 ∧
          (pick = Qfloor number ∨ pick = Qceiling number) ∧
          (Qabs (inject_Z pick - number) < 1)%Q.
Proof.
  unfold round_aspect.
  pose proof (Qfloor_le number) as H1. pose proof (Qlt_floor number) as H2.
  pose proof (Qle_ceiling number) as H3. pose proof (Qceiling_lt number) as H4.
  rewrite inject_Z_plus in H2. unfold Z.sub in H4. rewrite inject_Z_plus in H4.
  change (inject_Z 1) with 1%Q in H2.
  change (inject_Z (Z.opp 1)) with (- (1))%Q in H4.
  destruct (Qle_bool _ _); eexists; (split; [reflexivity|]).
  - split; [by left|]. apply Qabs_Qlt_condition.
    revert H1 H2. generalize (inject_Z (Qfloor number)). intros f H1 H2. split; lra.
  - split; [by right|]. apply Qabs_Qlt_condition.
    revert H3 H4. generalize (inject_Z (Qceiling number)). intros c H3 H4. split; lra.
Qed.

(** For a positive [number], [round_aspect] is less than one away from
    it. *)
Lemma round_aspect_near number key :
  (0 < number)%Q →
  (Qabs (inject_Z (round_aspect number key) - number) < 1)%Q.
Proof.
  intros Hpos.
  destruct (round_aspect_pick number key) as (pick & -> & Hpick & Hnear).
  destruct (Z.max_spec pick 1) as [[Hlt ->]|[Hge ->]]; [|done].
  assert (Hfloor : 0 ≤ Qfloor number).
  { change 0 with (Qfloor (inject_Z 0)).
    rewrite Qfloor_Z. rewrite <- (Qfloor_Z 0). apply Qfloor_resp_le.
    change (inject_Z 0) with 0%Q. lra. }
  assert (Hceil : Qfloor number ≤ Qceiling number).
  { pose proof (Qle_floor_ceiling number) as H. by rewrite <- Zle_Qle in H. }
  assert (pick = 0) as -> by (destruct Hpick; lia).
  apply Qabs_Qlt_condition in Hnear. apply Qabs_Qlt_condition.
  change (inject_Z 0) with 0%Q in Hnear. change (inject_Z 1) with 1%Q.
  split; lra.
Qed.

(** [round_aspect] takes, of the floor and the ceiling of [number] that are
    at least 1, one with the least key. *)
Lemma round_aspect_optimal number key n :
  n = Qfloor number ∨ n = Qceiling number →
  1 ≤ n →
  (key (round_aspect number key) <= key n)%Q.
Proof.
  intros Hn Hn1.
  assert (Hfc : Qfloor number ≤ Qceiling number).
  { pose proof (Qle_floor_ceiling number) as H. by rewrite <- Zle_Qle in H. }
  assert (Hcf : Qceiling number ≤ Qfloor number + 1).
  { pose proof (Qlt_floor number) as H2. pose proof (Qceiling_lt number) as H4.
    assert (H : (inject_Z (Qceiling number - 1) < inject_Z (Qfloor number + 1))%Q)
      by (eapply Qlt_trans; eauto).
    rewrite <- Zlt_Qlt in H. lia. }
  unfold round_aspect.
  destruct (Qle_bool (key (Qfloor number)) (key (Qceiling number))) eqn:Hkey.
  - apply Qle_bool_iff in Hkey.
    destruct (decide (1 ≤ Qfloor number)) as [Hf|Hf].
    + rewrite Z.max_l by done. destruct Hn as [->| ->]; [apply Qle_refl|done].
    + rewrite Z.max_r by lia.
      assert (n = 1) as -> by (destruct Hn; lia). apply Qle_refl.
  - assert (Hlt : (key (Qceiling number) < key (Qfloor number))%Q).
    { apply Qnot_le_lt. intros Hle. apply Qle_bool_iff in Hle. congruence. }
    destruct (decide (1 ≤ Qceiling number)) as [Hc|Hc].
    + rewrite Z.max_l by done.
      destruct Hn as [->| ->]; [by apply Qlt_le_weak|apply Qle_refl].
    + destruct Hn; lia.
Qed.

(** The side [thumbnail] computes, for an image larger than the square
    box of the side [m]: [round_aspect] of the proportional length, under
    the key of Pillow. *)
Lemma thumbnail_size_exact fault (iw ih m x y : Z) :
  0 ≤ iw → 0 ≤ ih → Z.max iw ih > m →
  thumbnail_size fault (iw, ih) (m, m) = Ok (x, y) →
  (iw ≤ ih →
   x = round_aspect (inject_Z m * (inject_Z iw / inject_Z ih))
         (λ n, Qabs (inject_Z iw / inject_Z ih - inject_Z n / inject_Z m))) ∧
  (ih < iw →
   y = round_aspect (inject_Z m / (inject_Z iw / inject_Z ih))
         (λ n, if n =? 0 then 0%Q
               else Qabs (inject_Z iw / inject_Z ih - inject_Z m / inject_Z n))).
Proof.
  intros Hw Hh Hmax.
  unfold thumbnail_size, thumbnail, preserve_aspect_ratio, py_div, bind, ret, raise.
  destruct ((m >=? iw) && (m >=? ih)) eqn:Hfit; [lia|].
  destruct (Qeq_bool (inject_Z ih) 0) eqn:Hh0; [done|].
  destruct (Qeq_bool (inject_Z m) 0) eqn:Hm0; [done|].
  apply Qeq_bool_neq in Hh0, Hm0.
  assert (Hhpos : 0 < ih).
  { destruct (decide (ih = 0)) as [->|]; [by destruct Hh0|lia]. }
  assert (Hr : (inject_Z m / inject_Z m == 1)%Q) by (by apply Qmult_inv_r).
  pose proof (aspect_le_one iw ih Hhpos) as Hasp.
  destruct (Qle_bool (inject_Z iw / inject_Z ih) (inject_Z m / inject_Z m)) eqn:Hbranch.
  - apply Qle_bool_iff in Hbranch. rewrite Hr in Hbranch. apply Hasp in Hbranch.
    intros Hres. split; [intros _|lia].
    destruct (bool_decide _) eqn:Heq.
    + apply bool_decide_eq_true in Heq. injection Heq as Heq1 Heq2.
      injection Hres as <- <-. done.
    + unfold resize, bind, may_raise, ret, raise in Hres. cbn [fst snd] in Hres.
      destruct (_ || _); [done|].
      destruct fault; simpl in Hres; [done|]. by injection Hres as <- <-.
  - assert (Hlt : ih < iw).
    { destruct (decide (iw ≤ ih)) as [Hle|]; [|lia]. apply Hasp in Hle.
      rewrite <- Hr in Hle. apply Qle_bool_iff in Hle. congruence. }
    destruct (Qeq_bool (inject_Z iw / inject_Z ih) 0) eqn:Ha0; [done|].
    intros Hres. split; [lia|intros _].
    destruct (bool_decide _) eqn:Heq.
    + apply bool_decide_eq_true in Heq. injection Heq as Heq1 Heq2.
      injection Hres as <- <-. done.
    + unfold resize, bind, may_raise, ret, raise in Hres. cbn [fst snd] in Hres.
      destruct (_ || _); [done|].
      destruct fault; simpl in Hres; [done|]. by injection Hres as <- <-.
Qed.

(** ** Lists of pages *)

Lemma filter_length_full {A} (P : A → Prop) `{∀ x, Decision (P x)} (l : list A) :
  length (filter P l) = length l ↔ ∀ x, x ∈ l → P x.
Proof.
  induction l as [|x l IH].
  - split; [|done]. intros _ y Hy. by apply not_elem_of_nil in Hy.
  - rewrite filter_cons. pose proof (length_filter P l) as Hle.
    destruct (decide (P x)) as [Hx|Hx]; simpl.
    + split.
      * intros Hlen y Hy. apply elem_of_cons in Hy as [->|Hy]; [done|].
        apply IH; [lia|done].
      * intros Hall. f_equal. apply IH. intros y Hy. apply Hall. by right.
    + split; [lia|]. intros Hall. destruct Hx. apply Hall. by left.
Qed.

Lemma filter_ext_in {A} (P Q : A → Prop) `{∀ x, Decision (P x)} `{∀ x, Decision (Q x)}
    (l : list A) :
  (∀ x, x ∈ l → (P x ↔ Q x)) → filter P l = filter Q l.
Proof.
  induction l as [|x l IH]; intros Hext; [done|].
  rewrite !filter_cons, IH by (intros y Hy; apply Hext; by right).
  pose proof (Hext x (list_elem_of_here x l)) as Hx.
  destruct (decide (P x)), (decide (Q x)); tauto.
Qed.

(** The paths the call returns on a document that opens. *)
Lemma convert_opens_paths w bytes tf dpi m q s doc :
  opens w bytes tf doc →
  fst (convert_pdf_to_images w bytes tf dpi m q s)
  = Ok (page_path tf <$> filter (λ k, page_ok w doc dpi m k = true) (seq 0 (page_count doc)),
        page_count doc).
Proof.
  intros Hopen. rewrite (convert_opens_run _ _ _ _ _ _ _ _ Hopen). simpl.
  by rewrite pages_image_paths.
Qed.

(** The files after the call on a document that opens. *)
Lemma convert_opens_files w bytes tf dpi m q s doc p :
  opens w bytes tf doc →
  files (snd (convert_pdf_to_images w bytes tf dpi m q s)) !! p
  = written_from w doc tf dpi m q
      (<[upload_path tf := Raw bytes]> (files s) !! p) (seq 0 (page_count doc)) p.
Proof.
  intros Hopen. rewrite (convert_opens_run _ _ _ _ _ _ _ _ Hopen). cbn [snd].
  match goal with |- files (snd (close_document w ?s2)) !! _ = _ =>
    destruct (close_document_run w s2) as (s3 & Hrun & _ & Hfiles & _) end.
  rewrite Hrun. cbn [snd]. rewrite Hfiles.
  by rewrite pages_files_lookup.
Qed.

(** ** Ways out of the call *)

(** The call ends in an exception exactly when one of the four steps
    before the loop raises, and then in that exception. *)
Lemma convert_raises_iff w bytes tf dpi m q s e :
  fst (convert_pdf_to_images w bytes tf dpi m q s) = Raise e
  ↔ abort_cause w bytes tf = Some e.
Proof.
  unfold abort_cause.
  destruct (makedirs_fault w tf) as [e1|] eqn:Hmk.
  { destruct (convert_makedirs_fault_run w bytes tf dpi m q s e1 Hmk) as (-> & _).
    split; congruence. }
  destruct (open_wb_fault w (upload_path tf)) as [e2|] eqn:Hop.
  { destruct (convert_open_wb_fault_run w bytes tf dpi m q s e2 Hmk Hop) as (-> & _).
    split; congruence. }
  destruct (write_fault w (upload_path tf)) as [e3|] eqn:Hwr.
  { destruct (convert_write_fault_run w bytes tf dpi m q s e3 Hmk Hop Hwr) as (-> & _).
    split; congruence. }
  destruct (fitz_parse w bytes) as [doc|e4] eqn:Hparse.
  - assert (Hopen : opens w bytes tf doc) by done.
    rewrite (convert_opens_paths _ _ _ _ _ _ _ _ Hopen). split; congruence.
  - assert (Hfail : open_fails w bytes tf e4) by done.
    destruct (convert_open_fails_run w bytes tf dpi m q s e4 Hfail) as (-> & _).
    split; congruence.
Qed.

(** On a document that has a page the handle the call opened is closed
    when the call returns, whatever the pages did; an error of [close] is
    logged, and the call returns all the same. *)
Lemma document_with_pages_is_closed w bytes tf dpi m q s doc :
  opens w bytes tf doc →
  page_count doc ≠ 0%nat →
  let r := convert_pdf_to_images w bytes tf dpi m q s in
  handles (snd r) = handles s ++ [Closed] ∧
  (∃ paths, fst r = Ok (paths, page_count doc)) ∧
  ∀ e, close_fault w = Some e →
       (ERROR, "Error closing PDF document: " +:+ e) ∈ log (snd r).
Proof.
  intros Hopen Hn r.
  assert (Ht : doc_truth doc = true).
  { unfold doc_truth. by destruct (page_count doc). }
  split; [|split].
  - subst r. rewrite (convert_opens_run _ _ _ _ _ _ _ _ Hopen). cbn [snd].
    match goal with |- handles (snd (close_document w ?s2)) = _ =>
      destruct (pages_frame w doc tf dpi m q (seq 0 (page_count doc))
                  (opened_state bytes tf doc s)) as (_ & Hh & Hd);
      destruct (close_document_truthy w s2 _ _ Hd Ht) as [-> _]
    end.
    rewrite Hh. simpl.
    rewrite <- (Nat.add_0_r (length (handles s))). by rewrite insert_app_r.
  - eexists. by apply convert_opens_paths.
  - intros e He. subst r. rewrite (convert_opens_run _ _ _ _ _ _ _ _ Hopen). cbn [snd].
    match goal with |- _ ∈ log (snd (close_document w ?s2)) =>
      destruct (pages_frame w doc tf dpi m q (seq 0 (page_count doc))
                  (opened_state bytes tf doc s)) as (_ & _ & Hd);
      destruct (close_document_truthy w s2 _ _ Hd Ht) as [_ Hlog]
    end.
    by apply Hlog.
Qed.

(** A call that ends in an exception leaves the handles as they were: no
    handle was opened. *)
Lemma aborted_call_opens_no_handle w bytes tf dpi m q s e :
  abort_cause w bytes tf = Some e →
  handles (snd (convert_pdf_to_images w bytes tf dpi m q s)) = handles s.
Proof.
  unfold abort_cause.
  destruct (makedirs_fault w tf) as [e1|] eqn:Hmk.
  { intros _. by destruct (convert_makedirs_fault_run w bytes tf dpi m q s e1 Hmk)
      as (_ & _ & _ & ->). }
  destruct (open_wb_fault w (upload_path tf)) as [e2|] eqn:Hop.
  { intros _. by destruct (convert_open_wb_fault_run w bytes tf dpi m q s e2 Hmk Hop)
      as (_ & _ & _ & ->). }
  destruct (write_fault w (upload_path tf)) as [e3|] eqn:Hwr.
  { intros _. by destruct (convert_write_fault_run w bytes tf dpi m q s e3 Hmk Hop Hwr)
      as (_ & _ & _ & ->). }
  destruct (fitz_parse w bytes) as [doc|e4] eqn:Hparse; [done|].
  intros _. assert (Hfail : open_fails w bytes tf e4) by done.
  by destruct (convert_open_fails_run w bytes tf dpi m q s e4 Hfail) as (_ & _ & _ & -> & _).
Qed.

(** The size of the image of a page that comes through. *)
Lemma page_outcome_size w doc dpi m k x y :
  page_outcome w doc dpi m k = Ok (x, y) →
  let pw := (rendered doc dpi k).1 in
  let ph := (rendered doc dpi k).2 in
  (Z.max pw ph ≤ m → (x, y) = (pw, ph)) ∧
  (Z.max pw ph > m →
   thumbnail_size (page_fault w k Resample) (pw, ph) (m, m) = Ok (x, y)).
Proof.
  unfold page_outcome. intros H.
  destruct (page_fault w k LoadPage); [done|].
  destruct (page_fault w k GetPixmap); [done|].
  destruct (page_fault w k FromBytes); [done|].
  cbv zeta in H |- *.
  destruct (rendered doc dpi k) as [pw ph]. cbn [fst snd] in H |- *.
  destruct (Z.max pw ph >? m) eqn:Hmax.
  - apply Z.gtb_lt in Hmax. split; [lia|]. intros _.
    destruct (thumbnail_size _ _ _) as [img|]; [|done].
    destruct (page_fault w k Save); [done|]. congruence.
  - assert (Z.max pw ph ≤ m) by (rewrite Z.gtb_ltb in Hmax; by apply Z.ltb_ge in Hmax).
    split; [|lia]. intros _.
    destruct (page_fault w k Save); [done|]. congruence.
Qed.

(** On a document without pages the handle the call opened stays open. *)
Lemma document_without_pages_stays_open w bytes tf dpi m q s doc :
  opens w bytes tf doc →
  page_count doc = 0%nat →
  handles (snd (convert_pdf_to_images w bytes tf dpi m q s)) = handles s ++ [Open].
Proof.
  intros Hopen Hn.
  assert (Ht : doc_truth doc = false) by (unfold doc_truth; by rewrite Hn).
  rewrite (convert_opens_run _ _ _ _ _ _ _ _ Hopen). cbn [snd].
  destruct (pages_frame w doc tf dpi m q (seq 0 (page_count doc))
              (opened_state bytes tf doc s)) as (_ & Hh & Hd).
  rewrite (close_document_falsy _ _ _ _ Hd Ht). cbn [snd]. by rewrite Hh.
Qed.

(** ** Two documents, two calls *)

Lemma convert_opens_page_file w bytes tf dpi m q s doc k img :
  opens w bytes tf doc →
  (k < page_count doc)%nat →
  page_outcome w doc dpi m k = Ok img →
  files (snd (convert_pdf_to_images w bytes tf dpi m q s)) !! page_path tf k
  = Some (Jpeg (fst img) (snd img) q).
Proof.
  intros Hopen Hk Hout. rewrite (convert_opens_files _ _ _ _ _ _ _ _ _ Hopen).
  apply written_from_page; [done|]. right. apply elem_of_seq. lia.
Qed.

Lemma convert_opens_dirs w bytes tf dpi m q s doc :
  opens w bytes tf doc →
  dirs (snd (convert_pdf_to_images w bytes tf dpi m q s)) = {[tf]} ∪ dirs s.
Proof.
  intros Hopen. rewrite (convert_opens_run _ _ _ _ _ _ _ _ Hopen). cbn [snd].
  match goal with |- dirs (snd (close_document w ?s2)) = _ =>
    destruct (close_document_run w s2) as (s3 & Hrun & Hdirs & _) end.
  rewrite Hrun. cbn [snd]. rewrite Hdirs.
  by destruct (pages_frame w doc tf dpi m q (seq 0 (page_count doc))
                 (opened_state bytes tf doc s)) as (-> & _).
Qed.

Lemma convert_opens_upload w bytes tf dpi m q s doc :
  opens w bytes tf doc →
  files (snd (convert_pdf_to_images w bytes tf dpi m q s)) !! upload_path tf
  = Some (Raw bytes).
Proof.
  intros Hopen. rewrite (convert_opens_files _ _ _ _ _ _ _ _ _ Hopen).
  rewrite lookup_insert_eq. apply written_from_other.
  intros k _ _. apply page_path_not_upload.
Qed.

Lemma page_outcome_ext w1 w2 doc1 doc2 dpi m k :
  page_fault w1 = page_fault w2 →
  rendered doc1 dpi k = rendered doc2 dpi k →
  page_outcome w1 doc1 dpi m k = page_outcome w2 doc2 dpi m k.
Proof. intros Hf Hr. unfold page_outcome. by rewrite Hf, Hr. Qed.

Lemma written_from_ext w1 w2 doc1 doc2 tf dpi m q l p : ∀ acc,
  (∀ k, k ∈ l → page_outcome w1 doc1 dpi m k = page_outcome w2 doc2 dpi m k) →
  written_from w1 doc1 tf dpi m q acc l p = written_from w2 doc2 tf dpi m q acc l p.
Proof.
  unfold written_from.
  induction l as [|k l IH]; intros acc Hext; [done|].
  simpl. rewrite (Hext k) by by left. apply IH. intros j Hj. apply Hext. by right.
Qed.

Lemma union_singleton_twice (x : string) (D : gset string) :
  {[x]} ∪ ({[x]} ∪ D) = {[x]} ∪ D.
Proof. apply set_eq. intros y. rewrite !elem_of_union. tauto. Qed.

(** ** The claims *)

(** C1. For every PDF that opens, [convert_pdf_to_images] returns, and the
    [total_pages] it returns is the [page_count] of the document; the list
    of artifacts is at most that long, and exactly that long only when
    every page comes through. *)
Theorem total_pages_is_page_count w bytes tf dpi m q s doc :
  opens w bytes tf doc →
  ∃ paths,
    fst (convert_pdf_to_images w bytes tf dpi m q s) = Ok (paths, page_count doc) ∧
    (length paths ≤ page_count doc)%nat ∧
    (length paths = page_count doc ↔
     ∀ k, (k < page_count doc)%nat → page_ok w doc dpi m k = true).
Proof.
  intros Hopen. eexists. split; [by apply convert_opens_paths|].
  rewrite length_fmap.
  pose proof (length_filter (λ k, page_ok w doc dpi m k = true) (seq 0 (page_count doc))) as Hle.
  rewrite length_seq in Hle. split; [done|].
  pose proof (filter_length_full (λ k, page_ok w doc dpi m k = true)
                (seq 0 (page_count doc))) as Hfull.
  rewrite length_seq in Hfull. rewrite Hfull. split.
  - intros Hall k Hk. apply Hall, elem_of_seq. lia.
  - intros Hall k Hk. apply Hall. apply elem_of_seq in Hk. lia.
Qed.

Lemma total_pages_is_page_count_witness :
  opens (sample_world (letter_doc 3) (broken_page 1)) sample_pdf "/tmp/out" (letter_doc 3) ∧
  ∃ paths,
    fst (convert_pdf_to_images (sample_world (letter_doc 3) (broken_page 1))
           sample_pdf "/tmp/out" 150 500 80 initial_state) = Ok (paths, 3%nat) ∧
    (length paths ≤ 3)%nat ∧
    (length paths = 3%nat ↔
     ∀ k, (k < 3)%nat →
          page_ok (sample_world (letter_doc 3) (broken_page 1)) (letter_doc 3) 150 500 k = true).
Proof.
  assert (H : opens (sample_world (letter_doc 3) (broken_page 1)) sample_pdf "/tmp/out"
                (letter_doc 3)) by (repeat split; reflexivity).
  split; [exact H|].
  exact (total_pages_is_page_count _ _ _ 150 500 80 initial_state _ H).
Defined.

(** C2. When page [k] fails, at whatever step, the call still returns: the
    error is logged, [total_pages] is the page count of the document, the
    failed page has no artifact, and every page that comes through has its
    artifact in the list and its image on disk. *)
Theorem page_failure_is_isolated w bytes tf dpi m q s doc k e :
  opens w bytes tf doc →
  (k < page_count doc)%nat →
  page_outcome w doc dpi m k = Raise e →
  let r := convert_pdf_to_images w bytes tf dpi m q s in
  ∃ paths,
    fst r = Ok (paths, page_count doc) ∧
    (ERROR, page_error_message k e) ∈ log (snd r) ∧
    (page_path tf k ∉ paths) ∧
    ∀ j img, (j < page_count doc)%nat → page_outcome w doc dpi m j = Ok img →
      page_path tf j ∈ paths ∧
      files (snd r) !! page_path tf j = Some (Jpeg (fst img) (snd img) q).
Proof.
  intros Hopen Hk He r. eexists. split; [by apply convert_opens_paths|].
  split; [|split].
  - subst r. rewrite (convert_opens_run _ _ _ _ _ _ _ _ Hopen). cbn [snd].
    match goal with |- _ ∈ log (snd (close_document w ?s2)) =>
      destruct (close_document_run w s2) as (s3 & Hrun & _ & _ & _ & _ & more & Hlog) end.
    rewrite Hrun. cbn [snd]. rewrite Hlog.
    apply elem_of_app. left. apply pages_log_error; [|done].
    apply elem_of_seq. lia.
  - intros Hin. apply list_elem_of_fmap in Hin as (j & Hj & Hin).
    apply page_path_inj in Hj as <-.
    apply list_elem_of_filter in Hin as [Hok _].
    unfold page_ok in Hok. by rewrite He in Hok.
  - intros j img Hj Himg. split.
    + apply list_elem_of_fmap_2, list_elem_of_filter. split.
      * unfold page_ok. by rewrite Himg.
      * apply elem_of_seq. lia.
    + subst r. rewrite (convert_opens_files _ _ _ _ _ _ _ _ _ Hopen).
      apply written_from_page; [done|]. right. apply elem_of_seq. lia.
Qed.

Lemma page_failure_is_isolated_witness :
  opens (sample_world (letter_doc 3) (broken_page 1)) sample_pdf "/tmp/out" (letter_doc 3) ∧
  (1 < page_count (letter_doc 3))%nat ∧
  page_outcome (sample_world (letter_doc 3) (broken_page 1)) (letter_doc 3) 150 500 1
  = Raise "cannot render page" ∧
  let r := convert_pdf_to_images (sample_world (letter_doc 3) (broken_page 1))
             sample_pdf "/tmp/out" 150 500 80 initial_state in
  ∃ paths,
    fst r = Ok (paths, 3%nat) ∧
    (ERROR, page_error_message 1 "cannot render page") ∈ log (snd r) ∧
    (page_path "/tmp/out" 1 ∉ paths) ∧
    ∀ j img, (j < 3)%nat →
      page_outcome (sample_world (letter_doc 3) (broken_page 1)) (letter_doc 3) 150 500 j
      = Ok img →
      page_path "/tmp/out" j ∈ paths ∧
      files (snd r) !! page_path "/tmp/out" j = Some (Jpeg (fst img) (snd img) 80).
Proof.
  assert (H1 : opens (sample_world (letter_doc 3) (broken_page 1)) sample_pdf "/tmp/out"
                 (letter_doc 3)) by (repeat split; reflexivity).
  assert (H2 : (1 < page_count (letter_doc 3))%nat) by (simpl; lia).
  assert (H3 : page_outcome (sample_world (letter_doc 3) (broken_page 1)) (letter_doc 3)
                 150 500 1 = Raise "cannot render page") by reflexivity.
  split; [exact H1|]. split; [exact H2|]. split; [exact H3|].
  exact (page_failure_is_isolated _ _ _ 150 500 80 initial_state _ _ _ H1 H2 H3).
Defined.

(** C3. A page that fails leaves no gap in the list that is returned: the
    paths of the later pages move down.  For a document of two pages whose
    first page does not render, the list holds the image of page 2 alone,
    at index 0; the lookup [image_paths[page_number - 1]] of [main] then
    shows page 2 for the page number 1, and raises for the page number 2,
    which [main] allows since [total_pages] is 2. *)
Theorem failed_page_shifts_later_pages :
  let r := convert_pdf_to_images (sample_world (letter_doc 2) (broken_page 0))
             sample_pdf "/tmp/out" 200 1024 85 initial_state in
  fst r = Ok (["/tmp/out/page_2.jpg"], 2%nat) ∧
  ["/tmp/out/page_2.jpg"] !! 0%nat = Some (page_path "/tmp/out" 1) ∧
  selected_page ["/tmp/out/page_2.jpg"] 1 = Ok "/tmp/out/page_2.jpg" ∧
  selected_page ["/tmp/out/page_2.jpg"] 2 = Raise "list index out of range".
Proof. vm_compute. done. Qed.

(** C4, as stated, has no page image in the output directory after a
    failure of [fitz.open].  Here the directory holds [page_5.jpg] of an
    earlier upload when an upload without bytes arrives: the call ends in
    the exception of [fitz.open], and the page image is still there. *)
Lemma fatal_open_keeps_earlier_page :
  let r := convert_pdf_to_images (sample_world (letter_doc 3) no_faults) []
             "/tmp/out" 200 1024 85 used_state in
  fst r = Raise "Cannot open empty file" ∧
  files used_state !! "/tmp/out/page_5.jpg" = Some (Jpeg 386 500 85) ∧
  files (snd r) !! "/tmp/out/page_5.jpg" = Some (Jpeg 386 500 85).
Proof. vm_compute. done. Qed.

(** C4, amended.  When [fitz.open] fails, the call ends in that exception:
    nothing is returned, and no page image is made or changed, so that the
    page images in the directory afterwards are those that were there
    before, none if there were none.  For a directory that exists or can be
    made, the whole operation is ended by this failure class alone, the
    failure to write the upload counted with it, and by nothing else: no
    failure of a page and no failure of [close] ends it. *)
Theorem open_failure_is_fatal w bytes tf dpi m q s :
  makedirs_fault w tf = None →
  let r := convert_pdf_to_images w bytes tf dpi m q s in
  (∀ e, open_fails w bytes tf e →
        fst r = Raise e ∧
        (∀ k, files (snd r) !! page_path tf k = files s !! page_path tf k) ∧
        ((∀ k, files s !! page_path tf k = None) →
         ∀ k, files (snd r) !! page_path tf k = None)) ∧
  (∀ e, fst r = Raise e ↔
        open_wb_fault w (upload_path tf) = Some e ∨
        (open_wb_fault w (upload_path tf) = None ∧
         write_fault w (upload_path tf) = Some e) ∨
        open_fails w bytes tf e).
Proof.
  intros Hmk r. split.
  - intros e Hfail.
    destruct (convert_open_fails_run w bytes tf dpi m q s e Hfail) as (Hr & _ & Hf & _).
    assert (Hpages : ∀ k, files (snd r) !! page_path tf k = files s !! page_path tf k).
    { intros k. subst r. rewrite Hf.
      apply lookup_insert_ne. intros Heq. by apply (page_path_not_upload tf k). }
    split; [done|]. split; [done|]. intros Hnone k. by rewrite Hpages.
  - intros e. subst r. rewrite convert_raises_iff. unfold abort_cause, open_fails,
      upload_written. rewrite Hmk.
    destruct (open_wb_fault w (upload_path tf)) as [e2|].
    { split; [intros [= <-]; by left|].
      intros [[= <-]|[[? _]|[(_ & ? & _) _]]]; done. }
    destruct (write_fault w (upload_path tf)) as [e3|].
    { split; [intros [= <-]; right; by left|].
      intros [?|[[_ [= <-]]|[(_ & _ & ?) _]]]; done. }
    destruct (fitz_parse w bytes) as [doc|e4].
    { split; [done|]. intros [?|[[_ ?]|[_ ?]]]; done. }
    split; [intros [= <-]; right; by right|].
    intros [?|[[_ ?]|[_ [= <-]]]]; done.
Qed.

Lemma open_failure_is_fatal_witness :
  makedirs_fault (sample_world (letter_doc 3) no_faults) "/tmp/out" = None ∧
  open_fails (sample_world (letter_doc 3) no_faults) [] "/tmp/out" "Cannot open empty file" ∧
  fst (convert_pdf_to_images (sample_world (letter_doc 3) no_faults) [] "/tmp/out"
         200 1024 85 initial_state) = Raise "Cannot open empty file" ∧
  ∀ k, files (snd (convert_pdf_to_images (sample_world (letter_doc 3) no_faults) []
                     "/tmp/out" 200 1024 85 initial_state)) !! page_path "/tmp/out" k
       = None.
Proof.
  assert (H0 : makedirs_fault (sample_world (letter_doc 3) no_faults) "/tmp/out" = None)
    by reflexivity.
  assert (H : open_fails (sample_world (letter_doc 3) no_faults) [] "/tmp/out"
                "Cannot open empty file") by (repeat split; reflexivity).
  split; [exact H0|]. split; [exact H|].
  destruct (open_failure_is_fatal (sample_world (letter_doc 3) no_faults) []
              "/tmp/out" 200 1024 85 initial_state H0) as [Hopen _].
  destruct (Hopen _ H) as (Hr & _ & Hnone).
  split; [exact Hr|]. apply Hnone. intros k. reflexivity.
Defined.

(** C5. The [finally] block closes the handle only when [pdf_document] is
    true, and a document without pages is false: for an upload that opens
    as a document of no pages the call returns [([], 0)] and leaves the one
    handle it opened open. *)
Theorem empty_document_left_open :
  let r := convert_pdf_to_images (sample_world (letter_doc 0) no_faults)
             sample_pdf "/tmp/out" 200 1024 85 initial_state in
  fitz_parse (sample_world (letter_doc 0) no_faults) sample_pdf = Ok (letter_doc 0) ∧
  fst r = Ok ([], 0%nat) ∧
  handles initial_state = [] ∧
  handles (snd r) = [Open].
Proof. vm_compute. done. Qed.

(** C6. The image of a page that comes through is saved with its larger
    side at most [max_image_size].  A rendering that fits is saved at its
    own size.  A larger one is scaled so that its larger side is
    [max_image_size] exactly and its aspect ratio is kept as well as whole
    pixels allow: the other side is less than one pixel away from the
    proportional length (it is 1 for a rendering without width), and of the
    two whole numbers next to that length it is one that brings the ratio of
    the sides nearest to that of the rendering. *)
Theorem artifact_within_max_dimension w bytes tf dpi m q s doc k :
  opens w bytes tf doc →
  (k < page_count doc)%nat →
  page_ok w doc dpi m k = true →
  let r := convert_pdf_to_images w bytes tf dpi m q s in
  let pw := (rendered doc dpi k).1 in
  let ph := (rendered doc dpi k).2 in
  let aspect := (inject_Z pw / inject_Z ph)%Q in
  ∃ x y,
    files (snd r) !! page_path tf k = Some (Jpeg x y q) ∧
    Z.max x y ≤ m ∧
    (Z.max pw ph ≤ m → (x, y) = (pw, ph)) ∧
    (Z.max pw ph > m →
     Z.max x y = m ∧ 1 ≤ x ∧ 1 ≤ y ∧
     (pw ≤ ph →
      y = m ∧
      ((Qabs (inject_Z x - inject_Z m * aspect) < 1)%Q ∨ (pw = 0 ∧ x = 1)) ∧
      (∀ n, n = Qfloor (inject_Z m * aspect) ∨ n = Qceiling (inject_Z m * aspect) →
            1 ≤ n →
            (Qabs (aspect - inject_Z x / inject_Z m)
             <= Qabs (aspect - inject_Z n / inject_Z m))%Q)) ∧
     (ph < pw →
      x = m ∧
      (Qabs (inject_Z y - inject_Z m / aspect) < 1)%Q ∧
      (∀ n, n = Qfloor (inject_Z m / aspect) ∨ n = Qceiling (inject_Z m / aspect) →
            1 ≤ n →
            (Qabs (aspect - inject_Z m / inject_Z y)
             <= Qabs (aspect - inject_Z m / inject_Z n))%Q))).
Proof.
  intros Hopen Hk Hok r pw ph aspect.
  unfold page_ok in Hok.
  destruct (page_outcome w doc dpi m k) as [[x y]|] eqn:Hout; [|done].
  exists x, y.
  destruct (page_outcome_size _ _ _ _ _ _ _ Hout) as [Hfit Hbig].
  fold pw ph in Hfit, Hbig.
  assert (Hpw : 0 ≤ pw) by (subst pw; unfold rendered; simpl; lia).
  assert (Hph : 0 ≤ ph) by (subst ph; unfold rendered; simpl; lia).
  split.
  { subst r. rewrite (convert_opens_files _ _ _ _ _ _ _ _ _ Hopen).
    apply (written_from_page _ _ _ _ _ _ _ _ (x, y)); [done|].
    right. apply elem_of_seq. lia. }
  destruct (decide (Z.max pw ph ≤ m)) as [Hle|Hgt].
  { specialize (Hfit Hle). injection Hfit as -> ->.
    split; [done|]. split; [done|]. lia. }
  assert (Hgt' : Z.max pw ph > m) by lia.
  destruct (thumbnail_size_spec _ _ _ _ _ _ Hpw Hph Hgt' (Hbig Hgt'))
    as (Hph0 & Hmax & Hx1 & Hy1 & Hportrait & Hlandscape).
  destruct (thumbnail_size_exact _ _ _ _ _ _ Hpw Hph Hgt' (Hbig Hgt'))
    as (Hxexact & Hyexact).
  fold aspect in Hxexact, Hyexact.
  assert (Hm : 0 < m) by lia.
  assert (Hmq : (0 < inject_Z m)%Q) by (rewrite <- (Zlt_Qlt 0); lia).
  assert (Hphq : (0 < inject_Z ph)%Q) by (rewrite <- (Zlt_Qlt 0); lia).
  split; [lia|]. split; [lia|]. intros _.
  split; [done|]. split; [done|]. split; [done|]. split.
  - intros Hpl. destruct (Hportrait Hpl) as [Hy _]. specialize (Hxexact Hpl).
    split; [done|]. split.
    + destruct (decide (pw = 0)) as [Hpw0|Hpw1].
      * right. split; [done|].
        assert (x ≤ 1); [|lia].
        rewrite Hxexact. apply round_aspect_le; [done|].
        assert (E : (inject_Z m * aspect == 0)%Q).
        { subst aspect. rewrite Hpw0. unfold Qdiv.
          change (inject_Z 0) with 0%Q. ring. }
        rewrite E. done.
      * left. rewrite Hxexact. apply round_aspect_near.
        assert (Hpwq : (0 < inject_Z pw)%Q) by (rewrite <- (Zlt_Qlt 0); lia).
        assert (Ha : (0 < aspect)%Q) by (subst aspect; apply Qlt_shift_div_l; lra).
        by apply Qmult_lt_0_compat.
    + intros n Hn Hn1. rewrite Hxexact at 1.
      by apply (round_aspect_optimal (inject_Z m * aspect)
                  (λ n, Qabs (aspect - inject_Z n / inject_Z m))).
  - intros Hls. destruct (Hlandscape Hls) as [Hx _]. specialize (Hyexact Hls).
    assert (Hpwq : (0 < inject_Z pw)%Q) by (rewrite <- (Zlt_Qlt 0); lia).
    assert (Ha : (0 < aspect)%Q) by (subst aspect; apply Qlt_shift_div_l; lra).
    split; [done|]. split.
    + rewrite Hyexact. apply round_aspect_near.
      apply Qlt_shift_div_l; [done|]. lra.
    + intros n Hn Hn1.
      pose proof (round_aspect_optimal (inject_Z m / aspect)
                    (λ n, if n =? 0 then 0%Q
                          else Qabs (aspect - inject_Z m / inject_Z n)) n Hn Hn1) as Hopt.
      cbv beta in Hopt. rewrite <- Hyexact in Hopt.
      destruct (y =? 0) eqn:Hy0; [lia|]. destruct (n =? 0) eqn:Hn0; [lia|]. done.
Qed.

Lemma artifact_within_max_dimension_witness :
  opens (sample_world (letter_doc 3) no_faults) sample_pdf "/tmp/out" (letter_doc 3) ∧
  (0 < page_count (letter_doc 3))%nat ∧
  page_ok (sample_world (letter_doc 3) no_faults) (letter_doc 3) 150 500 0 = true ∧
  rendered (letter_doc 3) 150 0 = (1275, 1650) ∧
  files (snd (convert_pdf_to_images (sample_world (letter_doc 3) no_faults)
                sample_pdf "/tmp/out" 150 500 80 initial_state))
    !! page_path "/tmp/out" 0 = Some (Jpeg 386 500 80) ∧
  ∃ x y,
    files (snd (convert_pdf_to_images (sample_world (letter_doc 3) no_faults)
                  sample_pdf "/tmp/out" 150 500 80 initial_state))
      !! page_path "/tmp/out" 0 = Some (Jpeg x y 80) ∧
    Z.max x y = 500 ∧
    (Qabs (inject_Z x - inject_Z 500 * (inject_Z 1275 / inject_Z 1650)) < 1)%Q.
Proof.
  assert (H1 : opens (sample_world (letter_doc 3) no_faults) sample_pdf "/tmp/out"
                 (letter_doc 3)) by (repeat split; reflexivity).
  assert (H2 : (0 < page_count (letter_doc 3))%nat) by (simpl; lia).
  assert (H3 : page_ok (sample_world (letter_doc 3) no_faults) (letter_doc 3) 150 500 0
               = true) by reflexivity.
  split; [exact H1|]. split; [exact H2|]. split; [exact H3|]. split; [reflexivity|].
  split; [reflexivity|].
  destruct (artifact_within_max_dimension _ _ _ 150 500 80 initial_state _ _ H1 H2 H3)
    as (x & y & Hfile & _ & _ & Hbig).
  exists x, y. split; [exact Hfile|].
  assert (Hgt : Z.max (rendered (letter_doc 3) 150 0).1 (rendered (letter_doc 3) 150 0).2
                > 500) by reflexivity.
  destruct (Hbig Hgt) as (Hmax & _ & _ & Hportrait & _).
  split; [exact Hmax|].
  assert (Hle : (rendered (letter_doc 3) 150 0).1 ≤ (rendered (letter_doc 3) 150 0).2)
    by (vm_compute; discriminate).
  destruct (Hportrait Hle) as (_ & [Hnear|[Hzero _]] & _); [exact Hnear|].
  vm_compute in Hzero. discriminate.
Defined.

(** C7. The path of an artifact is [os.path.join(temp_folder,
    f'page_{n}.jpg')] for the ordinal [n] of its page.  The list returned
    holds these paths for the pages that come through, in the order of the
    pages and each once, and each of them is a JPEG on disk afterwards.  A
    page image that the call makes or changes has an ordinal from 1 to
    [total_pages], and it is in the list unless [image.save] failed on
    it. *)
Theorem page_paths_from_ordinals w bytes tf dpi m q s doc :
  opens w bytes tf doc →
  let r := convert_pdf_to_images w bytes tf dpi m q s in
  ∃ paths,
    fst r = Ok (paths, page_count doc) ∧
    paths = (λ k, path_join tf ("page_" +:+ pretty (k + 1)%nat +:+ ".jpg"))
              <$> filter (λ k, page_ok w doc dpi m k = true) (seq 0 (page_count doc)) ∧
    NoDup paths ∧
    (∀ p, p ∈ paths ↔
          ∃ n, (1 ≤ n ≤ page_count doc)%nat ∧ page_ok w doc dpi m (n - 1) = true ∧
               p = path_join tf ("page_" +:+ pretty n +:+ ".jpg")) ∧
    (∀ p, p ∈ paths → ∃ x y, files (snd r) !! p = Some (Jpeg x y q)) ∧
    (∀ k, files (snd r) !! page_path tf k ≠ files s !! page_path tf k →
          (k < page_count doc)%nat ∧
          (page_fault w k Save = None → page_path tf k ∈ paths)).
Proof.
  intros Hopen r.
  exists (page_path tf <$> filter (λ k, page_ok w doc dpi m k = true) (seq 0 (page_count doc))).
  split; [by apply convert_opens_paths|]. split; [done|].
  assert (Hmem : ∀ p,
    p ∈ page_path tf <$> filter (λ k, page_ok w doc dpi m k = true) (seq 0 (page_count doc))
    ↔ ∃ k, (k < page_count doc)%nat ∧ page_ok w doc dpi m k = true ∧ p = page_path tf k).
  { intros p. rewrite list_elem_of_fmap. split.
    - intros (k & -> & Hin). apply list_elem_of_filter in Hin as [Hok Hin].
      apply elem_of_seq in Hin. exists k. repeat split; [lia|done].
    - intros (k & Hk & Hok & ->). exists k. split; [done|].
      apply list_elem_of_filter. split; [done|]. apply elem_of_seq. lia. }
  split; [|split; [|split]].
  - apply NoDup_fmap_2_strong; [|apply NoDup_filter, NoDup_seq].
    intros a b _ _. apply page_path_inj.
  - intros p. rewrite Hmem. split.
    + intros (k & Hk & Hok & ->). exists (k + 1)%nat.
      replace (k + 1 - 1)%nat with k by lia. repeat split; [lia|lia|done].
    + intros (n & Hn & Hok & ->). exists (n - 1)%nat.
      repeat split; [lia|done|].
      unfold page_path, page_name. by replace (n - 1 + 1)%nat with n by lia.
  - intros p Hp. apply Hmem in Hp as (k & Hk & Hok & ->).
    unfold page_ok in Hok.
    destruct (page_outcome w doc dpi m k) as [[x y]|] eqn:Hout; [|done].
    exists x, y. subst r.
    exact (convert_opens_page_file _ _ _ _ _ _ _ _ _ (x, y) Hopen Hk Hout).
  - intros k Hchanged.
    assert (Hcame : (k < page_count doc)%nat ∧ page_ok w doc dpi m k = true).
    { destruct (decide ((k < page_count doc)%nat ∧ page_ok w doc dpi m k = true))
        as [|Hnot]; [done|].
      destruct Hchanged. subst r. rewrite (convert_opens_files _ _ _ _ _ _ _ _ _ Hopen).
      rewrite lookup_insert_ne by (intros Heq; by apply (page_path_not_upload tf k)).
      apply written_from_other. intros j Hj Hok Heq.
      apply page_path_inj in Heq as ->. apply elem_of_seq in Hj.
      apply Hnot. split; [lia|done]. }
    destruct Hcame as [Hk Hok]. split; [done|]. intros _.
    apply Hmem. by exists k.
Qed.

Lemma page_paths_from_ordinals_witness :
  opens (sample_world (letter_doc 3) (broken_page 1)) sample_pdf "/tmp/out" (letter_doc 3) ∧
  ∃ paths,
    fst (convert_pdf_to_images (sample_world (letter_doc 3) (broken_page 1))
           sample_pdf "/tmp/out" 150 500 80 initial_state) = Ok (paths, 3%nat) ∧
    NoDup paths.
Proof.
  assert (H : opens (sample_world (letter_doc 3) (broken_page 1)) sample_pdf "/tmp/out"
                (letter_doc 3)) by (repeat split; reflexivity).
  split; [exact H|].
  destruct (page_paths_from_ordinals _ _ _ 150 500 80 initial_state _ H)
    as (paths & Hr & _ & Hnd & _).
  exists paths. split; [exact Hr|exact Hnd].
Defined.

(** C8. Each page is rendered with the matrix that scales both axes by
    [dpi/72]: two documents with the same number of pages whose pages
    render alike under that one matrix give the same result and the same
    files, whatever they render to under any other matrix; and a page that
    comes through and fits [max_image_size] is saved with the very size of
    its pixmap under that matrix. *)
Theorem rendering_scale_is_dpi_over_72 w bytes tf dpi m q s doc1 doc2 :
  page_count doc1 = page_count doc2 →
  (∀ k, (k < page_count doc1)%nat →
        pixmap_size doc1 k (mkMatrix (inject_Z dpi / 72) 0 0 (inject_Z dpi / 72) 0 0)
        = pixmap_size doc2 k (mkMatrix (inject_Z dpi / 72) 0 0 (inject_Z dpi / 72) 0 0)) →
  let r1 := convert_pdf_to_images (with_document w doc1) bytes tf dpi m q s in
  let r2 := convert_pdf_to_images (with_document w doc2) bytes tf dpi m q s in
  fst r1 = fst r2 ∧
  files (snd r1) = files (snd r2) ∧
  ∀ k, upload_written w tf →
       (k < page_count doc1)%nat →
       page_ok (with_document w doc1) doc1 dpi m k = true →
       let pix := pixmap_size doc1 k
                    (mkMatrix (inject_Z dpi / 72) 0 0 (inject_Z dpi / 72) 0 0) in
       Z.max (Z.of_N pix.1) (Z.of_N pix.2) ≤ m →
       files (snd r1) !! page_path tf k = Some (Jpeg (Z.of_N pix.1) (Z.of_N pix.2) q).
Proof.
  intros Hcount Hpix r1 r2.
  assert (Hout : ∀ k, k ∈ seq 0 (page_count doc1) →
            page_outcome (with_document w doc1) doc1 dpi m k
            = page_outcome (with_document w doc2) doc2 dpi m k).
  { intros k Hk. apply elem_of_seq in Hk. apply page_outcome_ext; [done|].
    unfold rendered, dpi_scale, fitz_Matrix. rewrite Hpix by lia. done. }
  split; [|split].
  - destruct (makedirs_fault w tf) as [e1|] eqn:Hmk.
    { subst r1 r2.
      destruct (convert_makedirs_fault_run (with_document w doc1) bytes tf dpi m q s e1 Hmk)
        as (-> & _).
      by destruct (convert_makedirs_fault_run (with_document w doc2) bytes tf dpi m q s e1
                     Hmk) as (-> & _). }
    destruct (open_wb_fault w (upload_path tf)) as [e2|] eqn:Hop.
    { subst r1 r2.
      destruct (convert_open_wb_fault_run (with_document w doc1) bytes tf dpi m q s e2
                  Hmk Hop) as (-> & _).
      by destruct (convert_open_wb_fault_run (with_document w doc2) bytes tf dpi m q s e2
                     Hmk Hop) as (-> & _). }
    destruct (write_fault w (upload_path tf)) as [e3|] eqn:Hwr.
    { subst r1 r2.
      destruct (convert_write_fault_run (with_document w doc1) bytes tf dpi m q s e3
                  Hmk Hop Hwr) as (-> & _).
      by destruct (convert_write_fault_run (with_document w doc2) bytes tf dpi m q s e3
                     Hmk Hop Hwr) as (-> & _). }
    assert (H1 : opens (with_document w doc1) bytes tf doc1) by done.
    assert (H2 : opens (with_document w doc2) bytes tf doc2) by done.
    subst r1 r2. rewrite (convert_opens_paths _ _ _ _ _ _ _ _ H1).
    rewrite (convert_opens_paths _ _ _ _ _ _ _ _ H2). rewrite <- Hcount.
    f_equal. f_equal. f_equal. apply filter_ext_in. intros k Hk.
    unfold page_ok. by rewrite (Hout k Hk).
  - destruct (makedirs_fault w tf) as [e1|] eqn:Hmk.
    { subst r1 r2.
      destruct (convert_makedirs_fault_run (with_document w doc1) bytes tf dpi m q s e1 Hmk)
        as (_ & _ & -> & _).
      by destruct (convert_makedirs_fault_run (with_document w doc2) bytes tf dpi m q s e1
                     Hmk) as (_ & _ & -> & _). }
    destruct (open_wb_fault w (upload_path tf)) as [e2|] eqn:Hop.
    { subst r1 r2.
      destruct (convert_open_wb_fault_run (with_document w doc1) bytes tf dpi m q s e2
                  Hmk Hop) as (_ & _ & -> & _).
      by destruct (convert_open_wb_fault_run (with_document w doc2) bytes tf dpi m q s e2
                     Hmk Hop) as (_ & _ & -> & _). }
    destruct (write_fault w (upload_path tf)) as [e3|] eqn:Hwr.
    { subst r1 r2.
      destruct (convert_write_fault_run (with_document w doc1) bytes tf dpi m q s e3
                  Hmk Hop Hwr) as (_ & _ & -> & _).
      by destruct (convert_write_fault_run (with_document w doc2) bytes tf dpi m q s e3
                     Hmk Hop Hwr) as (_ & _ & -> & _). }
    assert (H1 : opens (with_document w doc1) bytes tf doc1) by done.
    assert (H2 : opens (with_document w doc2) bytes tf doc2) by done.
    apply map_eq. intros p. subst r1 r2.
    rewrite (convert_opens_files _ _ _ _ _ _ _ _ _ H1).
    rewrite (convert_opens_files _ _ _ _ _ _ _ _ _ H2). rewrite <- Hcount.
    by apply written_from_ext.
  - intros k Hup Hk Hok pix Hfit.
    assert (H1 : opens (with_document w doc1) bytes tf doc1) by done.
    unfold page_ok in Hok.
    destruct (page_outcome (with_document w doc1) doc1 dpi m k) as [[x y]|] eqn:Hk1;
      [|done].
    destruct (page_outcome_size _ _ _ _ _ _ _ Hk1) as [Hsame _].
    assert (Hr : rendered doc1 dpi k = (Z.of_N pix.1, Z.of_N pix.2)) by done.
    rewrite Hr in Hsame. cbn [fst snd] in Hsame.
    specialize (Hsame Hfit). injection Hsame as -> ->.
    subst r1. by rewrite (convert_opens_page_file _ _ _ _ _ _ _ _ _ _ H1 Hk Hk1).
Qed.

Lemma rendering_scale_is_dpi_over_72_witness :
  page_count (letter_doc 2) = page_count (scale2_doc 2) ∧
  (∀ k, (k < page_count (letter_doc 2))%nat →
        pixmap_size (letter_doc 2) k (mkMatrix (inject_Z 144 / 72) 0 0 (inject_Z 144 / 72) 0 0)
        = pixmap_size (scale2_doc 2) k
            (mkMatrix (inject_Z 144 / 72) 0 0 (inject_Z 144 / 72) 0 0)) ∧
  pixmap_size (letter_doc 2) 0 (mkMatrix 1 0 0 1 0 0)
  ≠ pixmap_size (scale2_doc 2) 0 (mkMatrix 1 0 0 1 0 0) ∧
  fst (convert_pdf_to_images (with_document (sample_world (letter_doc 2) no_faults)
                                (letter_doc 2))
         sample_pdf "/tmp/out" 144 2000 85 initial_state)
  = fst (convert_pdf_to_images (with_document (sample_world (letter_doc 2) no_faults)
                                  (scale2_doc 2))
           sample_pdf "/tmp/out" 144 2000 85 initial_state).
Proof.
  assert (H1 : page_count (letter_doc 2) = page_count (scale2_doc 2)) by reflexivity.
  assert (H2 : ∀ k, (k < page_count (letter_doc 2))%nat →
            pixmap_size (letter_doc 2) k
              (mkMatrix (inject_Z 144 / 72) 0 0 (inject_Z 144 / 72) 0 0)
            = pixmap_size (scale2_doc 2) k
                (mkMatrix (inject_Z 144 / 72) 0 0 (inject_Z 144 / 72) 0 0))
    by (intros k _; reflexivity).
  split; [exact H1|]. split; [exact H2|]. split; [discriminate|].
  exact (proj1 (rendering_scale_is_dpi_over_72 (sample_world (letter_doc 2) no_faults)
                  sample_pdf "/tmp/out" 144 2000 85 initial_state _ _ H1 H2)).
Defined.

(** C9. A second call with the same upload, parameters and directory, in a
    world that behaves as it did the first time, returns what the first call
    returned (the same paths, hence the same count) and leaves every page
    image and the upload as the first call left them (the same page images
    with the same sizes), in the same directories; when the upload can be
    written, [uploaded.pdf] holds exactly the uploaded bytes afterwards. *)
Theorem second_call_same_artifacts w bytes tf dpi m q s :
  let r1 := convert_pdf_to_images w bytes tf dpi m q s in
  let r2 := convert_pdf_to_images w bytes tf dpi m q (snd r1) in
  fst r2 = fst r1 ∧
  (∀ k, files (snd r2) !! page_path tf k = files (snd r1) !! page_path tf k) ∧
  files (snd r2) !! upload_path tf = files (snd r1) !! upload_path tf ∧
  dirs (snd r2) = dirs (snd r1) ∧
  (upload_written w tf → files (snd r2) !! upload_path tf = Some (Raw bytes)).
Proof.
  cbv zeta.
  assert (Hboth :
    fst (convert_pdf_to_images w bytes tf dpi m q
           (snd (convert_pdf_to_images w bytes tf dpi m q s)))
    = fst (convert_pdf_to_images w bytes tf dpi m q s) ∧
    files (snd (convert_pdf_to_images w bytes tf dpi m q
                  (snd (convert_pdf_to_images w bytes tf dpi m q s))))
    = files (snd (convert_pdf_to_images w bytes tf dpi m q s)) ∧
    dirs (snd (convert_pdf_to_images w bytes tf dpi m q
                 (snd (convert_pdf_to_images w bytes tf dpi m q s))))
    = dirs (snd (convert_pdf_to_images w bytes tf dpi m q s)) ∧
    (upload_written w tf →
     files (snd (convert_pdf_to_images w bytes tf dpi m q
                   (snd (convert_pdf_to_images w bytes tf dpi m q s))))
       !! upload_path tf = Some (Raw bytes))).
  {
    set (s1 := snd (convert_pdf_to_images w bytes tf dpi m q s)).
    destruct (makedirs_fault w tf) as [e1|] eqn:Hmk.
    { destruct (convert_makedirs_fault_run w bytes tf dpi m q s e1 Hmk) as (Hr1 & _).
      destruct (convert_makedirs_fault_run w bytes tf dpi m q s1 e1 Hmk)
        as (Hr2 & Hd2 & Hf2 & _).
      split; [by rewrite Hr1, Hr2|]. split; [exact Hf2|]. split; [exact Hd2|].
      intros (Hw & _). rewrite Hmk in Hw. discriminate. }
    destruct (open_wb_fault w (upload_path tf)) as [e2|] eqn:Hop.
    { destruct (convert_open_wb_fault_run w bytes tf dpi m q s e2 Hmk Hop)
        as (Hr1 & Hd1 & _).
      destruct (convert_open_wb_fault_run w bytes tf dpi m q s1 e2 Hmk Hop)
        as (Hr2 & Hd2 & Hf2 & _).
      fold s1 in Hd1.
      split; [by rewrite Hr1, Hr2|]. split; [exact Hf2|]. split.
      - rewrite Hd2, Hd1. apply union_singleton_twice.
      - intros (_ & Hw & _). rewrite Hop in Hw. discriminate. }
    destruct (write_fault w (upload_path tf)) as [e3|] eqn:Hwr.
    { destruct (convert_write_fault_run w bytes tf dpi m q s e3 Hmk Hop Hwr)
        as (Hr1 & Hd1 & Hf1 & _).
      destruct (convert_write_fault_run w bytes tf dpi m q s1 e3 Hmk Hop Hwr)
        as (Hr2 & Hd2 & Hf2 & _).
      fold s1 in Hd1, Hf1.
      split; [by rewrite Hr1, Hr2|]. split; [|split].
      - rewrite Hf2, Hf1. apply insert_insert_eq.
      - rewrite Hd2, Hd1. apply union_singleton_twice.
      - intros (_ & _ & Hw). rewrite Hwr in Hw. discriminate. }
    destruct (fitz_parse w bytes) as [doc|e4] eqn:Hparse.
    - assert (Hopen : opens w bytes tf doc) by done.
      repeat split.
      + by rewrite !(convert_opens_paths _ _ _ _ _ _ _ _ Hopen).
      + apply map_eq. intros p.
        rewrite (convert_opens_files _ _ _ _ _ _ s1 _ p Hopen).
        destruct (decide (p = upload_path tf)) as [->|Hp].
        * rewrite lookup_insert_eq. subst s1.
          rewrite (convert_opens_files _ _ _ _ _ _ s _ _ Hopen).
          by rewrite lookup_insert_eq.
        * rewrite lookup_insert_ne by done. subst s1.
          rewrite (convert_opens_files _ _ _ _ _ _ s _ p Hopen).
          rewrite lookup_insert_ne by done. apply written_from_idemp.
      + rewrite (convert_opens_dirs _ _ _ _ _ _ s1 _ Hopen). subst s1.
        rewrite (convert_opens_dirs _ _ _ _ _ _ s _ Hopen). apply union_singleton_twice.
      + intros _. by apply (convert_opens_upload _ _ _ _ _ _ s1 doc).
    - assert (Hfail : open_fails w bytes tf e4) by done.
      destruct (convert_open_fails_run w bytes tf dpi m q s e4 Hfail)
        as (Hr1 & Hd1 & Hf1 & _).
      destruct (convert_open_fails_run w bytes tf dpi m q s1 e4 Hfail)
        as (Hr2 & Hd2 & Hf2 & _).
      fold s1 in Hd1, Hf1.
      split; [by rewrite Hr1, Hr2|]. split; [|split].
      + rewrite Hf2, Hf1. apply insert_insert_eq.
      + rewrite Hd2, Hd1. apply union_singleton_twice.
      + intros _. rewrite Hf2. apply lookup_insert_eq.
  }
  destruct Hboth as (Hfst & Hfiles & Hdirs & Hupload).
  split; [exact Hfst|]. split; [intros k; by rewrite Hfiles|].
  split; [by rewrite Hfiles|]. split; [exact Hdirs|exact Hupload].
Qed.

Lemma second_call_same_artifacts_witness :
  upload_written (sample_world (letter_doc 3) (broken_page 1)) "/tmp/out" ∧
  files (snd (convert_pdf_to_images (sample_world (letter_doc 3) (broken_page 1))
                sample_pdf "/tmp/out" 150 500 80
                (snd (convert_pdf_to_images (sample_world (letter_doc 3) (broken_page 1))
                        sample_pdf "/tmp/out" 150 500 80 initial_state))))
    !! upload_path "/tmp/out" = Some (Raw sample_pdf).
Proof.
  assert (H : upload_written (sample_world (letter_doc 3) (broken_page 1)) "/tmp/out")
    by (repeat split; reflexivity).
  split; [exact H|].
  exact (proj2 (proj2 (proj2 (proj2
    (second_call_same_artifacts (sample_world (letter_doc 3) (broken_page 1))
       sample_pdf "/tmp/out" 150 500 80 initial_state)))) H).
Defined.

(** C10, as stated, has no page image in the output directory after the
    fatal failure.  Here a document of two pages is uploaded and converted,
    and then an upload without bytes arrives for the same directory: the
    second call ends in the exception of [fitz.open], the upload it wrote is
    there, and so is the image of page 1 of the first document. *)
Lemma fatal_second_upload_keeps_pages :
  let r1 := convert_pdf_to_images (sample_world (letter_doc 2) no_faults) sample_pdf
              "/tmp/out" 150 500 80 initial_state in
  let r2 := convert_pdf_to_images (sample_world (letter_doc 2) no_faults) []
              "/tmp/out" 150 500 80 (snd r1) in
  fst r2 = Raise "Cannot open empty file" ∧
  files (snd r2) !! "/tmp/out/uploaded.pdf" = Some (Raw []) ∧
  files (snd r2) !! "/tmp/out/page_1.jpg" = Some (Jpeg 386 500 80).
Proof. vm_compute. done. Qed.

(** C10, amended.  When [fitz.open] fails the call has already made the
    directory and written the upload, and it removes nothing: it ends in
    the exception of [fitz.open] with [uploaded.pdf] holding the uploaded
    bytes, and it has made no page image: the page images in the directory
    are those that were there before the call, none if there were none. *)
Theorem open_failure_leaves_upload w bytes tf dpi m q s e :
  open_fails w bytes tf e →
  let r := convert_pdf_to_images w bytes tf dpi m q s in
  fst r = Raise e ∧
  tf ∈ dirs (snd r) ∧
  files (snd r) !! upload_path tf = Some (Raw bytes) ∧
  (∀ k, files (snd r) !! page_path tf k = files s !! page_path tf k) ∧
  ((∀ k, files s !! page_path tf k = None) →
   ∀ k, files (snd r) !! page_path tf k = None).
Proof.
  intros Hfail r.
  destruct (convert_open_fails_run w bytes tf dpi m q s e Hfail) as (Hr & Hd & Hf & _).
  fold r in Hr, Hd, Hf.
  assert (Hpages : ∀ k, files (snd r) !! page_path tf k = files s !! page_path tf k).
  { intros k. rewrite Hf. apply lookup_insert_ne.
    intros Heq. by apply (page_path_not_upload tf k). }
  split; [done|]. split.
  { rewrite Hd. apply elem_of_union_l. by apply elem_of_singleton. }
  split; [rewrite Hf; apply lookup_insert_eq|].
  split; [done|]. intros Hnone k. by rewrite Hpages.
Qed.

Lemma open_failure_leaves_upload_witness :
  open_fails (sample_world (letter_doc 3) no_faults) [] "/tmp/out" "Cannot open empty file" ∧
  fst (convert_pdf_to_images (sample_world (letter_doc 3) no_faults) [] "/tmp/out"
         200 1024 85 initial_state) = Raise "Cannot open empty file" ∧
  files (snd (convert_pdf_to_images (sample_world (letter_doc 3) no_faults) [] "/tmp/out"
                200 1024 85 initial_state)) !! upload_path "/tmp/out" = Some (Raw []).
Proof.
  assert (H : open_fails (sample_world (letter_doc 3) no_faults) [] "/tmp/out"
                "Cannot open empty file") by (repeat split; reflexivity).
  split; [exact H|].
  destruct (open_failure_leaves_upload (sample_world (letter_doc 3) no_faults) []
              "/tmp/out" 200 1024 85 initial_state _ H) as (Hr & _ & Hf & _).
  split; [exact Hr|exact Hf].
Defined.

(** ** Further properties of [convert_pdf_to_images] *)

(** The five ways a call goes. *)
Lemma convert_exit_cases w bytes tf :
  (∃ e, makedirs_fault w tf = Some e) ∨
  (makedirs_fault w tf = None ∧ ∃ e, open_wb_fault w (upload_path tf) = Some e) ∨
  (makedirs_fault w tf = None ∧ open_wb_fault w (upload_path tf) = None ∧
   ∃ e, write_fault w (upload_path tf) = Some e) ∨
  (∃ e, open_fails w bytes tf e) ∨
  (∃ doc, opens w bytes tf doc).
Proof.
  unfold open_fails, opens, upload_written.
  destruct (makedirs_fault w tf) as [e1|]; [left; by eexists|]. right.
  destruct (open_wb_fault w (upload_path tf)) as [e2|];
    [left; split; [done|by eexists]|].
  right.
  destruct (write_fault w (upload_path tf)) as [e3|];
    [left; split; [done|split; [done|by eexists]]|].
  right.
  destruct (fitz_parse w bytes) as [doc|e4]; [right|left]; by eexists.
Qed.

Lemma written_from_is_Some w doc tf dpi m q l p acc :
  is_Some acc → is_Some (written_from w doc tf dpi m q acc l p).
Proof.
  intros Hacc. rewrite written_from_last.
  by destruct (written_from w doc tf dpi m q None l p).
Qed.



(** X2. The call removes nothing: a file that was there before is still
    there afterwards, whichever way the call ends, and so is every
    directory. *)
Theorem nothing_is_deleted w bytes tf dpi m q s :
  let r := convert_pdf_to_images w bytes tf dpi m q s in
  (∀ p, is_Some (files s !! p) → is_Some (files (snd r) !! p)) ∧
  (∀ d, d ∈ dirs s → d ∈ dirs (snd r)).
Proof.
  intros r. subst r.
  destruct (convert_exit_cases w bytes tf)
    as [[e H]|[[Hmk [e H]]|[(Hmk & Hop & e & H)|[[e H]|[doc H]]]]].
  - destruct (convert_makedirs_fault_run w bytes tf dpi m q s e H) as (_ & -> & -> & _).
    done.
  - destruct (convert_open_wb_fault_run w bytes tf dpi m q s e Hmk H)
      as (_ & -> & -> & _).
    split; [done|]. intros d Hd. by apply elem_of_union_r.
  - destruct (convert_write_fault_run w bytes tf dpi m q s e Hmk Hop H)
      as (_ & -> & -> & _).
    split; [|intros d Hd; by apply elem_of_union_r].
    intros p' Hp. rewrite lookup_insert. by destruct (decide _).
  - destruct (convert_open_fails_run w bytes tf dpi m q s e H) as (_ & -> & -> & _).
    split; [|intros d Hd; by apply elem_of_union_r].
    intros p' Hp. rewrite lookup_insert. by destruct (decide _).
  - split.
    + intros p' Hp. rewrite (convert_opens_files _ _ _ _ _ _ _ _ _ H).
      apply written_from_is_Some. rewrite lookup_insert. by destruct (decide _).
    + intros d Hd. rewrite (convert_opens_dirs _ _ _ _ _ _ _ _ H).
      by apply elem_of_union_r.
Qed.

Lemma nothing_is_deleted_witness :
  is_Some (files used_state !! "/tmp/out/page_5.jpg") ∧
  is_Some (files (snd (convert_pdf_to_images (sample_world (letter_doc 3) no_faults)
                         sample_pdf "/tmp/out" 150 500 80 used_state))
             !! "/tmp/out/page_5.jpg").
Proof.
  assert (H : is_Some (files used_state !! "/tmp/out/page_5.jpg")) by (by eexists).
  split; [exact H|].
  exact (proj1 (nothing_is_deleted (sample_world (letter_doc 3) no_faults)
                  sample_pdf "/tmp/out" 150 500 80 used_state) _ H).
Defined.

(** X3. The image file of a page is left alone unless [image.save] is
    reached for that page: on a document that opens, the file
    [page_<k+1>.jpg] of an ordinal beyond the page count, or of a page that
    fails at a step before the save, is what it was before the call, so an
    image that an earlier upload left there stays. *)
Theorem unfinished_page_keeps_old_file w bytes tf dpi m q s doc k :
  opens w bytes tf doc →
  (page_count doc ≤ k)%nat ∨
  (page_ok w doc dpi m k = false ∧ page_fault w k Save = None) →
  files (snd (convert_pdf_to_images w bytes tf dpi m q s)) !! page_path tf k
  = files s !! page_path tf k.
Proof.
  intros Hopen Hk. rewrite (convert_opens_files _ _ _ _ _ _ _ _ _ Hopen).
  rewrite lookup_insert_ne by (intros Heq; by apply (page_path_not_upload tf k)).
  apply written_from_other. intros j Hj Hok Heq.
  apply page_path_inj in Heq as ->. apply elem_of_seq in Hj.
  destruct Hk as [Hk|[Hk _]]; [lia|congruence].
Qed.

Lemma unfinished_page_keeps_old_file_witness :
  opens (sample_world (letter_doc 3) no_faults) sample_pdf "/tmp/out" (letter_doc 3) ∧
  ((page_count (letter_doc 3) ≤ 4)%nat ∨
   (page_ok (sample_world (letter_doc 3) no_faults) (letter_doc 3) 150 500 4 = false ∧
    page_fault (sample_world (letter_doc 3) no_faults) 4 Save = None)) ∧
  files (snd (convert_pdf_to_images (sample_world (letter_doc 3) no_faults)
                sample_pdf "/tmp/out" 150 500 80 used_state)) !! page_path "/tmp/out" 4
  = Some (Jpeg 386 500 85).
Proof.
  assert (H1 : opens (sample_world (letter_doc 3) no_faults) sample_pdf "/tmp/out"
                 (letter_doc 3)) by (repeat split; reflexivity).
  assert (H2 : (page_count (letter_doc 3) ≤ 4)%nat ∨
               (page_ok (sample_world (letter_doc 3) no_faults) (letter_doc 3) 150 500 4
                = false ∧
                page_fault (sample_world (letter_doc 3) no_faults) 4 Save = None))
    by (left; simpl; lia).
  split; [exact H1|]. split; [exact H2|].
  exact (unfinished_page_keeps_old_file _ _ _ 150 500 80 used_state _ 4%nat H1 H2).
Defined.

(** ** The box of a thumbnail *)

Lemma inject_Z_pos (a : Z) : 0 < a → (0 < inject_Z a)%Q.
Proof. intros H. rewrite <- (Zlt_Qlt 0). lia. Qed.

(** Quotients of positive integers compare as their cross products. *)
Lemma Qdiv_le_cross (a b c d : Z) :
  0 < b → 0 < d →
  ((inject_Z a / inject_Z b <= inject_Z c / inject_Z d)%Q ↔ a * d ≤ c * b).
Proof.
  intros Hb Hd.
  pose proof (inject_Z_pos b Hb) as Hb'. pose proof (inject_Z_pos d Hd) as Hd'.
  rewrite Zle_Qle, !inject_Z_mult. split; intros H.
  - apply (Qmult_le_compat_r _ _ (inject_Z b * inject_Z d)) in H; [|nra].
    assert (E1 : (inject_Z a / inject_Z b * (inject_Z b * inject_Z d)
                  == inject_Z a * inject_Z d)%Q) by (field; lra).
    assert (E2 : (inject_Z c / inject_Z d * (inject_Z b * inject_Z d)
                  == inject_Z c * inject_Z b)%Q) by (field; lra).
    by rewrite E1, E2 in H.
  - apply Qle_shift_div_l; [done|].
    assert (E : (inject_Z a / inject_Z b * inject_Z d
                 == inject_Z a * inject_Z d / inject_Z b)%Q) by (field; lra).
    rewrite E. apply Qle_shift_div_r; [done|]. done.
Qed.

(** [a * (c / b) <= d] from [a * c <= d * b]. *)
Lemma Qmult_div_le (a b c d : Z) :
  0 < b → a * c ≤ d * b →
  (inject_Z a * (inject_Z c / inject_Z b) <= inject_Z d)%Q.
Proof.
  intros Hb H. pose proof (inject_Z_pos b Hb) as Hb'.
  rewrite Zle_Qle, !inject_Z_mult in H.
  assert (E : (inject_Z a * (inject_Z c / inject_Z b)
               == inject_Z a * inject_Z c / inject_Z b)%Q) by (field; lra).
  rewrite E. by apply Qle_shift_div_r.
Qed.

(** [a / (c / b) <= d] from [a * b <= d * c]. *)
Lemma Qdiv_div_le (a b c d : Z) :
  0 < b → 0 < c → a * b ≤ d * c →
  (inject_Z a / (inject_Z c / inject_Z b) <= inject_Z d)%Q.
Proof.
  intros Hb Hc H.
  pose proof (inject_Z_pos b Hb) as Hb'. pose proof (inject_Z_pos c Hc) as Hc'.
  rewrite Zle_Qle, !inject_Z_mult in H.
  assert (E : (inject_Z a / (inject_Z c / inject_Z b)
               == inject_Z a * inject_Z b / inject_Z c)%Q) by (field; lra).
  rewrite E. by apply Qle_shift_div_r.
Qed.

Lemma Qeq_bool_inject_pos (a : Z) : 1 ≤ a → Qeq_bool (inject_Z a) 0 = false.
Proof.
  intros Ha. destruct (Qeq_bool (inject_Z a) 0) eqn:E; [|done].
  apply Qeq_bool_iff in E. pose proof (inject_Z_pos a ltac:(lia)). lra.
Qed.

(** What [thumbnail] leaves of an image that has pixels, for a box that has
    pixels: a size within the image and within the box, the size of the
    image itself when that fits the box, and otherwise a size with one side
    on the box. *)
Lemma thumbnail_size_box fault (iw ih sx sy x y : Z) :
  1 ≤ iw → 1 ≤ ih → 1 ≤ sx → 1 ≤ sy →
  thumbnail_size fault (iw, ih) (sx, sy) = Ok (x, y) →
  1 ≤ x ≤ iw ∧ 1 ≤ y ≤ ih ∧ x ≤ sx ∧ y ≤ sy ∧
  ((iw ≤ sx ∧ ih ≤ sy ∧ (x, y) = (iw, ih)) ∨
   (¬ (iw ≤ sx ∧ ih ≤ sy) ∧ (x = sx ∨ y = sy))).
Proof.
  intros Hiw Hih Hsx Hsy.
  unfold thumbnail_size, thumbnail, preserve_aspect_ratio, py_div, bind, ret, raise.
  destruct ((sx >=? iw) && (sy >=? ih)) eqn:Hfit.
  { intros [= <- <-]. apply andb_true_iff in Hfit as [H1 H2].
    split; [lia|]. split; [lia|]. split; [lia|]. split; [lia|].
    left. repeat split; lia. }
  assert (Hnofit : ¬ (iw ≤ sx ∧ ih ≤ sy)).
  { intros [H1 H2]. apply andb_false_iff in Hfit as [H|H]; lia. }
  rewrite (Qeq_bool_inject_pos ih Hih), (Qeq_bool_inject_pos sy Hsy).
  set (aspect := (inject_Z iw / inject_Z ih)%Q).
  pose proof (Qdiv_le_cross iw ih sx sy ltac:(lia) ltac:(lia)) as Hcross.
  fold aspect in Hcross.
  destruct (Qle_bool aspect (inject_Z sx / inject_Z sy)) eqn:Hbranch.
  - apply Qle_bool_iff, Hcross in Hbranch.
    assert (Hsy' : sy ≤ ih).
    { destruct (decide (sy ≤ ih)) as [|Hgt]; [done|].
      assert (sx < iw) by lia. nia. }
    set (key := λ n : Z, _). set (number := (inject_Z sy * aspect)%Q).
    pose proof (round_aspect_cases number key) as [H1 _].
    assert (H2 : round_aspect number key ≤ sx).
    { apply round_aspect_le; [done|]. subst number aspect.
      apply Qmult_div_le; lia. }
    assert (H3 : round_aspect number key ≤ iw).
    { apply round_aspect_le; [done|]. subst number aspect.
      apply Qmult_div_le; [lia|nia]. }
    intros Hres.
    assert (Hxy : x = round_aspect number key ∧ y = sy).
    { destruct (bool_decide _) eqn:Heq.
      - apply bool_decide_eq_true in Heq. injection Heq as Heq1 Heq2.
        injection Hres as <- <-. done.
      - unfold resize, bind, may_raise, ret, raise in Hres. cbn [fst snd] in Hres.
        destruct (_ || _); [done|].
        destruct fault; simpl in Hres; [done|]. by injection Hres as <- <-. }
    destruct Hxy as [-> ->].
    split; [lia|]. split; [lia|]. split; [lia|]. split; [lia|].
    right. split; [done|by right].
  - assert (Hgt : ¬ iw * sy ≤ sx * ih).
    { intros Hle. apply Hcross, Qle_bool_iff in Hle. congruence. }
    assert (Hsx' : sx ≤ iw).
    { destruct (decide (sx ≤ iw)) as [|Hlt]; [done|].
      assert (sy < ih) by lia. nia. }
    assert (Ha0 : Qeq_bool aspect 0 = false).
    { destruct (Qeq_bool aspect 0) eqn:E; [|done]. apply Qeq_bool_iff in E.
      pose proof (inject_Z_pos iw ltac:(lia)). pose proof (inject_Z_pos ih ltac:(lia)).
      assert ((0 < aspect)%Q) by (subst aspect; apply Qlt_shift_div_l; lra). lra. }
    rewrite Ha0.
    set (key := λ n : Z, _). set (number := (inject_Z sx / aspect)%Q).
    pose proof (round_aspect_cases number key) as [H1 _].
    assert (H2 : round_aspect number key ≤ sy).
    { apply round_aspect_le; [done|]. subst number aspect.
      apply Qdiv_div_le; lia. }
    assert (H3 : round_aspect number key ≤ ih).
    { apply round_aspect_le; [done|]. subst number aspect.
      apply Qdiv_div_le; [lia|lia|nia]. }
    intros Hres.
    assert (Hxy : x = sx ∧ y = round_aspect number key).
    { destruct (bool_decide _) eqn:Heq.
      - apply bool_decide_eq_true in Heq. injection Heq as Heq1 Heq2.
        injection Hres as <- <-. done.
      - unfold resize, bind, may_raise, ret, raise in Hres. cbn [fst snd] in Hres.
        destruct (_ || _); [done|].
        destruct fault; simpl in Hres; [done|]. by injection Hres as <- <-. }
    destruct Hxy as [-> ->].
    split; [lia|]. split; [lia|]. split; [lia|]. split; [lia|].
    right. split; [done|by left].
Qed.

(** With a resize that works, [thumbnail] of an image that has pixels, for
    a box that has pixels, returns. *)
Lemma thumbnail_size_total (iw ih sx sy : Z) :
  1 ≤ iw → 1 ≤ ih → 1 ≤ sx → 1 ≤ sy →
  ∃ x y, thumbnail_size None (iw, ih) (sx, sy) = Ok (x, y).
Proof.
  intros Hiw Hih Hsx Hsy.
  unfold thumbnail_size, thumbnail, preserve_aspect_ratio, py_div, bind, ret, raise.
  destruct ((sx >=? iw) && (sy >=? ih)); [by eexists _, _|].
  rewrite (Qeq_bool_inject_pos ih Hih), (Qeq_bool_inject_pos sy Hsy).
  set (aspect := (inject_Z iw / inject_Z ih)%Q).
  assert (Ha0 : Qeq_bool aspect 0 = false).
  { destruct (Qeq_bool aspect 0) eqn:E; [|done]. apply Qeq_bool_iff in E.
    pose proof (inject_Z_pos iw ltac:(lia)). pose proof (inject_Z_pos ih ltac:(lia)).
    assert ((0 < aspect)%Q) by (subst aspect; apply Qlt_shift_div_l; lra). lra. }
  destruct (Qle_bool aspect (inject_Z sx / inject_Z sy)).
  - match goal with |- context [round_aspect ?n ?k] =>
      pose proof (round_aspect_cases n k) as [H1 _]; set (r := round_aspect n k) in * end.
    destruct (bool_decide _); [by eexists _, _|].
    unfold resize, bind, may_raise, ret. cbn [fst snd].
    rewrite orb_false_intro by (apply Z.leb_gt; lia). by eexists _, _.
  - rewrite Ha0.
    match goal with |- context [round_aspect ?n ?k] =>
      pose proof (round_aspect_cases n k) as [H1 _]; set (r := round_aspect n k) in * end.
    destruct (bool_decide _); [by eexists _, _|].
    unfold resize, bind, may_raise, ret. cbn [fst snd].
    rewrite orb_false_intro by (apply Z.leb_gt; lia). by eexists _, _.
Qed.

(** The image of a page that comes through is within its rendering, when
    the rendering has pixels. *)
Lemma page_outcome_bounds w doc dpi m k x y :
  page_outcome w doc dpi m k = Ok (x, y) →
  1 ≤ (rendered doc dpi k).1 →
  1 ≤ (rendered doc dpi k).2 →
  1 ≤ x ≤ (rendered doc dpi k).1 ∧ 1 ≤ y ≤ (rendered doc dpi k).2.
Proof.
  intros Hout Hpw Hph.
  destruct (page_outcome_size _ _ _ _ _ _ _ Hout) as [Hfit Hbig].
  revert Hpw Hph Hfit Hbig.
  destruct (rendered doc dpi k) as [pw ph]. cbn [fst snd].
  intros Hpw Hph Hfit Hbig.
  destruct (decide (Z.max pw ph ≤ m)) as [Hle|Hgt].
  - specialize (Hfit Hle). injection Hfit as -> ->. lia.
  - assert (Hgt' : Z.max pw ph > m) by lia. specialize (Hbig Hgt').
    assert (Hpw0 : 0 ≤ pw) by lia. assert (Hph0 : 0 ≤ ph) by lia.
    destruct (thumbnail_size_spec _ _ _ _ _ _ Hpw0 Hph0 Hgt' Hbig)
      as (_ & Hmax & Hx & Hy & _).
    assert (Hm : 1 ≤ m) by lia.
    destruct (thumbnail_size_box _ _ _ _ _ _ _ Hpw Hph Hm Hm Hbig) as (? & ? & _).
    done.
Qed.

(** X4. No page image is larger than its rendering: the image of a page
    that comes through, whose rendering has pixels, is saved with a width
    and a height that are at least 1 and at most those of the rendering. *)
Theorem page_image_not_enlarged w bytes tf dpi m q s doc k :
  opens w bytes tf doc →
  (k < page_count doc)%nat →
  page_ok w doc dpi m k = true →
  1 ≤ (rendered doc dpi k).1 →
  1 ≤ (rendered doc dpi k).2 →
  ∃ x y,
    files (snd (convert_pdf_to_images w bytes tf dpi m q s)) !! page_path tf k
    = Some (Jpeg x y q) ∧
    1 ≤ x ≤ (rendered doc dpi k).1 ∧
    1 ≤ y ≤ (rendered doc dpi k).2.
Proof.
  intros Hopen Hk Hok Hpw Hph. unfold page_ok in Hok.
  destruct (page_outcome w doc dpi m k) as [[x y]|] eqn:Hout; [|done].
  exists x, y.
  split; [exact (convert_opens_page_file _ _ _ _ _ _ _ _ _ (x, y) Hopen Hk Hout)|].
  by apply (page_outcome_bounds w doc dpi m k).
Qed.

Lemma page_image_not_enlarged_witness :
  opens (sample_world (letter_doc 3) no_faults) sample_pdf "/tmp/out" (letter_doc 3) ∧
  (0 < page_count (letter_doc 3))%nat ∧
  page_ok (sample_world (letter_doc 3) no_faults) (letter_doc 3) 150 500 0 = true ∧
  1 ≤ (rendered (letter_doc 3) 150 0).1 ∧
  1 ≤ (rendered (letter_doc 3) 150 0).2 ∧
  ∃ x y,
    files (snd (convert_pdf_to_images (sample_world (letter_doc 3) no_faults)
                  sample_pdf "/tmp/out" 150 500 80 initial_state))
      !! page_path "/tmp/out" 0 = Some (Jpeg x y 80) ∧
    1 ≤ x ≤ 1275 ∧ 1 ≤ y ≤ 1650.
Proof.
  assert (H1 : opens (sample_world (letter_doc 3) no_faults) sample_pdf "/tmp/out"
                 (letter_doc 3)) by (repeat split; reflexivity).
  assert (H2 : (0 < page_count (letter_doc 3))%nat) by (simpl; lia).
  assert (H3 : page_ok (sample_world (letter_doc 3) no_faults) (letter_doc 3) 150 500 0
               = true) by reflexivity.
  assert (H4 : 1 ≤ (rendered (letter_doc 3) 150 0).1) by (vm_compute; discriminate).
  assert (H5 : 1 ≤ (rendered (letter_doc 3) 150 0).2) by (vm_compute; discriminate).
  split; [exact H1|]. split; [exact H2|]. split; [exact H3|].
  split; [exact H4|]. split; [exact H5|].
  exact (page_image_not_enlarged _ _ _ 150 500 80 initial_state _ _ H1 H2 H3 H4 H5).
Defined.

(** The records of the [finally] block. *)
Lemma close_document_log w s h doc :
  pdf_document s = Some (h, doc) →
  log (snd (close_document w s)) = log s ++ closing_records w doc.
Proof.
  intros Hd.
  unfold close_document, closing_records, bind, get, try_except, fitz_close, modify,
    logger, may_raise, ret, raise.
  rewrite Hd. destruct (doc_truth doc); [|by rewrite app_nil_r].
  by destruct (close_fault w).
Qed.

Lemma pages_log w doc tf dpi m q l : ∀ s,
  log (fold_left (page_effect w doc tf dpi m q) l s)
  = log s ++ concat (page_records w doc dpi m <$> l).
Proof.
  induction l as [|k l IH]; intros s; simpl; [by rewrite app_nil_r|].
  rewrite IH. unfold page_effect, page_records.
  destruct (page_outcome w doc dpi m k); simpl; by rewrite <- !app_assoc.
Qed.

(** X5. On a document that has a page, an error of [close] does not reach
    the caller: the call returns the artifacts and the page count as it
    would have, the handle is closed, and the last record of the log is the
    error of [close]. *)
Theorem close_failure_is_swallowed w bytes tf dpi m q s doc e :
  opens w bytes tf doc →
  page_count doc ≠ 0%nat →
  close_fault w = Some e →
  let r := convert_pdf_to_images w bytes tf dpi m q s in
  fst r = Ok (page_path tf <$> filter (λ k, page_ok w doc dpi m k = true)
                                 (seq 0 (page_count doc)),
              page_count doc) ∧
  handles (snd r) = handles s ++ [Closed] ∧
  last (log (snd r)) = Some (ERROR, "Error closing PDF document: " +:+ e).
Proof.
  intros Hopen Hn He r.
  assert (Ht : doc_truth doc = true).
  { unfold doc_truth. by destruct (page_count doc). }
  split; [by apply convert_opens_paths|].
  subst r. rewrite (convert_opens_run _ _ _ _ _ _ _ _ Hopen). cbn [snd].
  destruct (pages_frame w doc tf dpi m q (seq 0 (page_count doc))
              (opened_state bytes tf doc s)) as (_ & Hh & Hd).
  split.
  - destruct (close_document_truthy w _ _ _ Hd Ht) as [-> _].
    rewrite Hh. simpl.
    rewrite <- (Nat.add_0_r (length (handles s))). by rewrite insert_app_r.
  - rewrite (close_document_log _ _ _ _ Hd). unfold closing_records.
    rewrite Ht, He. by rewrite last_snoc.
Qed.

Lemma close_failure_is_swallowed_witness :
  opens (close_fault_world (letter_doc 2)) sample_pdf "/tmp/out" (letter_doc 2) ∧
  page_count (letter_doc 2) ≠ 0%nat ∧
  close_fault (close_fault_world (letter_doc 2)) = Some "document closed" ∧
  fst (convert_pdf_to_images (close_fault_world (letter_doc 2)) sample_pdf "/tmp/out"
         150 500 80 initial_state)
  = Ok (["/tmp/out/page_1.jpg"; "/tmp/out/page_2.jpg"], 2%nat) ∧
  handles (snd (convert_pdf_to_images (close_fault_world (letter_doc 2)) sample_pdf
                  "/tmp/out" 150 500 80 initial_state)) = [Closed].
Proof.
  assert (H1 : opens (close_fault_world (letter_doc 2)) sample_pdf "/tmp/out"
                 (letter_doc 2)) by (repeat split; reflexivity).
  assert (H2 : page_count (letter_doc 2) ≠ 0%nat) by discriminate.
  assert (H3 : close_fault (close_fault_world (letter_doc 2)) = Some "document closed")
    by reflexivity.
  split; [exact H1|]. split; [exact H2|]. split; [exact H3|].
  destruct (close_failure_is_swallowed _ _ _ 150 500 80 initial_state _ _ H1 H2 H3)
    as (Hr & Hh & _).
  split; [exact Hr|exact Hh].
Defined.

(** X6. On a document that opens, the call adds to the log and rewrites
    none of it: after the records that were there come the two records of
    the upload and of the opening, then for each page in turn one DEBUG
    record if it came through and two ERROR records (the message and the
    traceback) if it failed, then the record of the [finally] block. *)
Theorem log_is_written_page_by_page w bytes tf dpi m q s doc :
  opens w bytes tf doc →
  log (snd (convert_pdf_to_images w bytes tf dpi m q s))
  = log s
    ++ [(INFO, "PDF saved to " +:+ path_join tf "uploaded.pdf");
        (INFO, "Opened PDF with " +:+ pretty (page_count doc) +:+ " pages")]
    ++ concat (page_records w doc dpi m <$> seq 0 (page_count doc))
    ++ closing_records w doc.
Proof.
  intros Hopen. rewrite (convert_opens_run _ _ _ _ _ _ _ _ Hopen). cbn [snd].
  destruct (pages_frame w doc tf dpi m q (seq 0 (page_count doc))
              (opened_state bytes tf doc s)) as (_ & _ & Hd).
  rewrite (close_document_log _ _ _ _ Hd), pages_log. simpl log.
  by rewrite <- !app_assoc.
Qed.

Lemma log_is_written_page_by_page_witness :
  opens (sample_world (letter_doc 2) (broken_page 0)) sample_pdf "/tmp/out" (letter_doc 2) ∧
  log (snd (convert_pdf_to_images (sample_world (letter_doc 2) (broken_page 0))
              sample_pdf "/tmp/out" 150 500 80 initial_state))
  = [(INFO, "PDF saved to /tmp/out/uploaded.pdf");
     (INFO, "Opened PDF with 2 pages");
     (ERROR, "Error processing page 1: cannot render page");
     (ERROR, "Traceback (most recent call last): cannot render page");
     (DEBUG, "Generated compressed image for page 2");
     (INFO, "PDF document closed successfully")].
Proof.
  assert (H : opens (sample_world (letter_doc 2) (broken_page 0)) sample_pdf "/tmp/out"
                (letter_doc 2)) by (repeat split; reflexivity).
  split; [exact H|].
  exact (log_is_written_page_by_page _ _ _ 150 500 80 initial_state _ H).
Defined.

(** ** [setup_logging] *)

Lemma log_path_unfold tf :
  log_path tf
  = (if bool_decide (tf = "") || ends_with_sep tf then tf else tf +:+ "/")
    +:+ "pdf_flipbook.log".
Proof. unfold log_path. by apply path_join_relative. Qed.



(** X8. The log file of a folder is none of the artifacts of
    [convert_pdf_to_images] there: its path differs from that of the upload
    and from that of every page image, and a call that returns has neither
    the log file nor the upload among the paths it returns. *)
Theorem log_file_is_no_artifact w bytes tf dpi m q s :
  log_path tf ≠ upload_path tf ∧
  (∀ k, log_path tf ≠ page_path tf k) ∧
  (∀ paths n, fst (convert_pdf_to_images w bytes tf dpi m q s) = Ok (paths, n) →
              (log_path tf ∉ paths) ∧ (upload_path tf ∉ paths)).
Proof.
  assert (Hup : log_path tf ≠ upload_path tf).
  { rewrite log_path_unfold, upload_path_unfold. intros H.
    apply (inj (String.app _)) in H. discriminate. }
  assert (Hpage : ∀ k, log_path tf ≠ page_path tf k).
  { intros k. rewrite log_path_unfold, page_path_unfold, page_name_unfold. intros H.
    apply (inj (String.app _)) in H. discriminate. }
  split; [done|]. split; [done|]. intros paths n Hr.
  destruct (convert_exit_cases w bytes tf)
    as [[e H]|[[Hmk [e H]]|[(Hmk & Hop & e & H)|[[e H]|[doc H]]]]].
  - destruct (convert_makedirs_fault_run w bytes tf dpi m q s e H) as (Hr' & _).
    rewrite Hr' in Hr. discriminate.
  - destruct (convert_open_wb_fault_run w bytes tf dpi m q s e Hmk H) as (Hr' & _).
    rewrite Hr' in Hr. discriminate.
  - destruct (convert_write_fault_run w bytes tf dpi m q s e Hmk Hop H) as (Hr' & _).
    rewrite Hr' in Hr. discriminate.
  - destruct (convert_open_fails_run w bytes tf dpi m q s e H) as (Hr' & _).
    rewrite Hr' in Hr. discriminate.
  - rewrite (convert_opens_paths _ _ _ _ _ _ _ _ H) in Hr.
    injection Hr as <- _. split.
    + intros Hin. apply list_elem_of_fmap in Hin as (k & Heq & _). by apply (Hpage k).
    + intros Hin. apply list_elem_of_fmap in Hin as (k & Heq & _).
      by apply (page_path_not_upload tf k).
Qed.

Lemma log_file_is_no_artifact_witness :
  fst (convert_pdf_to_images (sample_world (letter_doc 3) (broken_page 1))
         sample_pdf "/tmp/out" 150 500 80 used_state)
  = Ok (["/tmp/out/page_1.jpg"; "/tmp/out/page_3.jpg"], 3%nat) ∧
  ("/tmp/out/pdf_flipbook.log" ∉ ["/tmp/out/page_1.jpg"; "/tmp/out/page_3.jpg"]) ∧
  ("/tmp/out/uploaded.pdf" ∉ ["/tmp/out/page_1.jpg"; "/tmp/out/page_3.jpg"]).
Proof.
  assert (H : fst (convert_pdf_to_images (sample_world (letter_doc 3) (broken_page 1))
                     sample_pdf "/tmp/out" 150 500 80 used_state)
              = Ok (["/tmp/out/page_1.jpg"; "/tmp/out/page_3.jpg"], 3%nat))
    by (vm_compute; reflexivity).
  split; [exact H|].
  exact (proj2 (proj2 (log_file_is_no_artifact (sample_world (letter_doc 3) (broken_page 1))
                         sample_pdf "/tmp/out" 150 500 80 used_state)) _ _ H).
Defined.

(** ** The viewer *)

(** X9. The page navigation keeps the page number within the document:
    from a page number between 1 and [total_pages] it gives a page number
    between 1 and [total_pages], one step away at most; a click on Previous
    goes one page back except on page 1, and a click on Next alone goes one
    page on except on the last page. *)
Theorem navigation_keeps_page_in_range page_number total_pages prev_clicked next_clicked :
  1 ≤ page_number ≤ total_pages →
  let page_number' := navigation page_number total_pages prev_clicked next_clicked in
  1 ≤ page_number' ≤ total_pages ∧
  (prev_clicked = true →
   page_number' = if page_number =? 1 then
                    (if next_clicked && (1 <? total_pages) then 2 else 1)
                  else page_number - 1) ∧
  (prev_clicked = false → next_clicked = true →
   page_number' = if page_number =? total_pages then page_number else page_number + 1) ∧
  (prev_clicked = false → next_clicked = false → page_number' = page_number).
Proof.
  intros Hrange. unfold navigation, st_button.
  destruct prev_clicked, next_clicked; simpl;
    destruct (page_number <=? 1) eqn:H1; destruct (page_number >=? total_pages) eqn:H2;
    destruct (page_number >? 1) eqn:H3; destruct (page_number <? total_pages) eqn:H4;
    destruct (page_number =? 1) eqn:H5; destruct (page_number =? total_pages) eqn:H6;
    destruct (1 <? total_pages) eqn:H7; simpl; lia.
Qed.

Lemma navigation_keeps_page_in_range_witness :
  1 ≤ 3 ≤ 3 ∧ navigation 3 3 false true = 3 ∧ navigation 3 3 true false = 2.
Proof.
  assert (H : 1 ≤ 3 ≤ 3) by lia.
  split; [exact H|].
  destruct (navigation_keeps_page_in_range 3 3 false true H) as (_ & _ & Hnext & _).
  destruct (navigation_keeps_page_in_range 3 3 true false H) as (_ & Hprev & _).
  split; [exact (Hnext eq_refl eq_refl)|exact (Hprev eq_refl)].
Defined.

(** The lookup [image_paths[page_number - 1]] for a page number from 1 on. *)
Lemma selected_page_lookup (image_paths : list string) (page_number : Z) :
  1 ≤ page_number →
  selected_page image_paths page_number
  = match image_paths !! Z.to_nat (page_number - 1) with
    | Some p => Ok p
    | None => Raise "list index out of range"
    end.
Proof.
  intros Hn. unfold selected_page. cbv zeta.
  destruct (page_number - 1 <? 0) eqn:Hneg; [lia|].
  destruct ((page_number - 1 <? 0) || (Z.of_nat (length image_paths) <=? page_number - 1))
    eqn:Hout; [|done].
  rewrite Hneg in Hout. simpl in Hout. apply Z.leb_le in Hout.
  rewrite lookup_ge_None_2; [done|lia].
Qed.

(** The element at the index [i] of the members of [a, a+1, ...] that
    satisfy [P] is [a + i] or beyond, and beyond when a member up to
    [a + i] fails [P]. *)
Lemma filter_seq_lookup (P : nat → Prop) `{∀ x, Decision (P x)} n : ∀ a i j,
  filter P (seq a n) !! i = Some j →
  (a + i ≤ j < a + n)%nat ∧
  ((∃ k, (a ≤ k ≤ a + i)%nat ∧ ¬ P k) → (a + i < j)%nat).
Proof.
  induction n as [|n IH]; intros a i j Hj; [done|].
  simpl in Hj. rewrite filter_cons in Hj.
  destruct (decide (P a)) as [Ha|Ha].
  - destruct i as [|i]; simpl in Hj.
    + injection Hj as <-. split; [lia|].
      intros (k & Hk & HP). assert (k = a) as -> by lia. done.
    + destruct (IH _ _ _ Hj) as [Hle Hlt]. split; [lia|].
      intros (k & Hk & HP).
      assert (k ≠ a) by (intros ->; done).
      assert (S a + i < j)%nat; [|lia].
      apply Hlt. exists k. split; [lia|done].
  - destruct (IH _ _ _ Hj) as [Hle _]. split; lia.
Qed.

Lemma filter_all {A} (P : A → Prop) `{∀ x, Decision (P x)} (l : list A) :
  (∀ x, x ∈ l → P x) → filter P l = l.
Proof.
  induction l as [|x l IH]; intros Hall; [done|].
  rewrite filter_cons, decide_True by (apply Hall; by left).
  f_equal. apply IH. intros y Hy. apply Hall. by right.
Qed.

(** X10. The page number of the session is not brought back into a new
    document: after a call that returns [total_pages], a page number
    beyond it stays where it is unless Previous is clicked, and the lookup
    of the page image raises [IndexError] for it. *)
Theorem stale_page_number_is_not_clamped w bytes tf dpi m q s doc
    (page_number : Z) (next_clicked : bool) :
  opens w bytes tf doc →
  Z.of_nat (page_count doc) < page_number →
  ∃ paths,
    fst (convert_pdf_to_images w bytes tf dpi m q s) = Ok (paths, page_count doc) ∧
    navigation page_number (Z.of_nat (page_count doc)) false next_clicked = page_number ∧
    selected_page paths page_number = Raise "list index out of range".
Proof.
  intros Hopen Hpn. eexists. split; [by apply convert_opens_paths|]. split.
  - unfold navigation, st_button. simpl.
    destruct (page_number <? Z.of_nat (page_count doc)) eqn:Hlt; [lia|].
    by rewrite andb_false_r.
  - rewrite selected_page_lookup by lia.
    rewrite lookup_ge_None_2; [done|].
    rewrite length_fmap.
    pose proof (length_filter (λ k, page_ok w doc dpi m k = true)
                  (seq 0 (page_count doc))) as Hle.
    rewrite length_seq in Hle. lia.
Qed.

Lemma stale_page_number_is_not_clamped_witness :
  opens (sample_world (letter_doc 2) no_faults) sample_pdf "/tmp/out" (letter_doc 2) ∧
  Z.of_nat (page_count (letter_doc 2)) < 5 ∧
  ∃ paths,
    fst (convert_pdf_to_images (sample_world (letter_doc 2) no_faults) sample_pdf
           "/tmp/out" 150 500 80 initial_state) = Ok (paths, 2%nat) ∧
    navigation 5 2 false true = 5 ∧
    selected_page paths 5 = Raise "list index out of range".
Proof.
  assert (H1 : opens (sample_world (letter_doc 2) no_faults) sample_pdf "/tmp/out"
                 (letter_doc 2)) by (repeat split; reflexivity).
  assert (H2 : Z.of_nat (page_count (letter_doc 2)) < 5) by (simpl; lia).
  split; [exact H1|]. split; [exact H2|].
  exact (stale_page_number_is_not_clamped _ _ _ 150 500 80 initial_state _ 5 true H1 H2).
Defined.

(** X11. When every page of the document comes through, the list that is
    returned answers the lookup of [main] for every page number of the
    document with the image of that very page:
    [image_paths[n - 1]] is [page_<n>.jpg]. *)
Theorem every_page_is_shown w bytes tf dpi m q s doc :
  opens w bytes tf doc →
  (∀ k, (k < page_count doc)%nat → page_ok w doc dpi m k = true) →
  ∃ paths,
    fst (convert_pdf_to_images w bytes tf dpi m q s) = Ok (paths, page_count doc) ∧
    ∀ page_number, 1 ≤ page_number ≤ Z.of_nat (page_count doc) →
      selected_page paths page_number
      = Ok (path_join tf ("page_" +:+ pretty (Z.to_nat page_number) +:+ ".jpg")).
Proof.
  intros Hopen Hall. eexists. split; [by apply convert_opens_paths|].
  intros pn Hpn. rewrite selected_page_lookup by lia.
  assert (Hfilter : filter (λ k, page_ok w doc dpi m k = true) (seq 0 (page_count doc))
                    = seq 0 (page_count doc)).
  { apply filter_all. intros k Hk. apply elem_of_seq in Hk. apply Hall. lia. }
  rewrite Hfilter, list_lookup_fmap, lookup_seq_lt by lia. simpl.
  unfold page_path, page_name.
  by replace (Z.to_nat (pn - 1) + 1)%nat with (Z.to_nat pn) by lia.
Qed.

Lemma every_page_is_shown_witness :
  opens (sample_world (letter_doc 3) no_faults) sample_pdf "/tmp/out" (letter_doc 3) ∧
  (∀ k, (k < page_count (letter_doc 3))%nat →
        page_ok (sample_world (letter_doc 3) no_faults) (letter_doc 3) 150 500 k = true) ∧
  ∃ paths,
    fst (convert_pdf_to_images (sample_world (letter_doc 3) no_faults) sample_pdf
           "/tmp/out" 150 500 80 initial_state) = Ok (paths, 3%nat) ∧
    selected_page paths 3 = Ok "/tmp/out/page_3.jpg".
Proof.
  assert (H1 : opens (sample_world (letter_doc 3) no_faults) sample_pdf "/tmp/out"
                 (letter_doc 3)) by (repeat split; reflexivity).
  assert (H2 : ∀ k, (k < page_count (letter_doc 3))%nat →
            page_ok (sample_world (letter_doc 3) no_faults) (letter_doc 3) 150 500 k = true)
    by (intros k _; reflexivity).
  split; [exact H1|]. split; [exact H2|].
  destruct (every_page_is_shown _ _ _ 150 500 80 initial_state _ H1 H2)
    as (paths & Hr & Hshown).
  exists paths. split; [exact Hr|].
  assert (H3 : 1 ≤ 3 ≤ Z.of_nat (page_count (letter_doc 3))) by (simpl; lia).
  exact (Hshown 3 H3).
Defined.

(** X12. When a page fails, the list that is returned is out of step with
    the page numbers from that page on: for a page number beyond the failed
    page the lookup of [main] gives the image of a page with a greater
    ordinal, if it gives one, and for the last page number of the document
    it raises [IndexError]. *)
Theorem failed_page_misaligns_lookup w bytes tf dpi m q s doc k :
  opens w bytes tf doc →
  (k < page_count doc)%nat →
  page_ok w doc dpi m k = false →
  ∃ paths,
    fst (convert_pdf_to_images w bytes tf dpi m q s) = Ok (paths, page_count doc) ∧
    selected_page paths (Z.of_nat (page_count doc)) = Raise "list index out of range" ∧
    ∀ page_number p,
      Z.of_nat k < page_number →
      selected_page paths page_number = Ok p →
      ∃ ordinal : nat,
        page_number < Z.of_nat ordinal ∧ (ordinal ≤ page_count doc)%nat ∧
        p = path_join tf ("page_" +:+ pretty ordinal +:+ ".jpg").
Proof.
  intros Hopen Hk Hfail. eexists. split; [by apply convert_opens_paths|]. split.
  - rewrite selected_page_lookup by lia.
    rewrite lookup_ge_None_2; [done|]. rewrite length_fmap.
    assert (Hlt : (length (filter (λ k, page_ok w doc dpi m k = true)
                             (seq 0 (page_count doc)))
                   < length (seq 0 (page_count doc)))%nat).
    { apply (length_filter_lt _ _ k); [apply elem_of_seq; lia|congruence]. }
    rewrite length_seq in Hlt. lia.
  - intros pn p Hpn. rewrite selected_page_lookup by lia.
    rewrite list_lookup_fmap.
    destruct (filter _ _ !! Z.to_nat (pn - 1)) as [j|] eqn:Hj; [|done].
    simpl. intros [= <-].
    destruct (filter_seq_lookup _ _ _ _ _ Hj) as [Hrange Hshift].
    assert (Hlt : (0 + Z.to_nat (pn - 1) < j)%nat).
    { apply Hshift. exists k. split; [lia|congruence]. }
    exists (j + 1)%nat. split; [lia|]. split; [lia|done].
Qed.

Lemma failed_page_misaligns_lookup_witness :
  opens (sample_world (letter_doc 3) (broken_page 0)) sample_pdf "/tmp/out" (letter_doc 3) ∧
  (0 < page_count (letter_doc 3))%nat ∧
  page_ok (sample_world (letter_doc 3) (broken_page 0)) (letter_doc 3) 150 500 0 = false ∧
  ∃ paths,
    fst (convert_pdf_to_images (sample_world (letter_doc 3) (broken_page 0)) sample_pdf
           "/tmp/out" 150 500 80 initial_state) = Ok (paths, 3%nat) ∧
    selected_page paths 3 = Raise "list index out of range".
Proof.
  assert (H1 : opens (sample_world (letter_doc 3) (broken_page 0)) sample_pdf "/tmp/out"
                 (letter_doc 3)) by (repeat split; reflexivity).
  assert (H2 : (0 < page_count (letter_doc 3))%nat) by (simpl; lia).
  assert (H3 : page_ok (sample_world (letter_doc 3) (broken_page 0)) (letter_doc 3)
                 150 500 0 = false) by reflexivity.
  split; [exact H1|]. split; [exact H2|]. split; [exact H3|].
  destruct (failed_page_misaligns_lookup _ _ _ 150 500 80 initial_state _ _ H1 H2 H3)
    as (paths & Hr & Hlast & _).
  exists paths. split; [exact Hr|exact Hlast].
Defined.

(** ** The thumbnails *)

Lemma image_open_jpeg decode path s x y quality :
  files s !! path = Some (Jpeg x y quality) →
  image_open decode path s = (Ok (x, y), s).
Proof. intros H. unfold image_open, bind, get, ret. by rewrite H. Qed.

Lemma image_open_state decode path s : snd (image_open decode path s) = s.
Proof.
  unfold image_open, bind, get, ret, raise.
  destruct (files s !! path) as [[data|x y quality]|]; [|done..].
  by destruct (decode data).
Qed.

(** X13. The loop that makes the thumbnails never raises: an image that
    cannot be opened or scaled is logged and left out.  It returns the
    thumbnails it was given followed by at most one for each path, and for
    each path that gives none it adds two ERROR records to the log, and no
    other record. *)
Theorem thumbnails_loop_never_raises w decode fault image_paths : ∀ thumbnails s,
  ∃ more errors s',
    make_thumbnails w decode fault image_paths thumbnails s = (Ok (thumbnails ++ more), s') ∧
    (length more ≤ length image_paths)%nat ∧
    log s' = log s ++ errors ∧
    (length errors + 2 * length more = 2 * length image_paths)%nat ∧
    Forall (λ record, record.1 = ERROR) errors.
Proof.
  induction image_paths as [|path rest IH]; intros thumbnails s.
  - exists [], [], s. simpl. unfold ret. by rewrite !app_nil_r.
  - simpl. unfold bind at 1. unfold try_except at 1. unfold bind at 1.
    pose proof (image_open_state decode path s) as Hst.
    destruct (image_open decode path s) as [[thumb|e] s1]; simpl in Hst; subst s1.
    + unfold bind at 1. rewrite thumbnail_run.
      destruct (thumbnail_size (fault path) thumb (150, 200)) as [thumb'|e].
      * unfold ret at 1.
        destruct (IH (thumbnails ++ [thumb']) s)
          as (more & errors & s' & Hrun & Hlen & Hlog & Hcount & Herr).
        exists (thumb' :: more), errors, s'. rewrite Hrun.
        split; [by rewrite <- app_assoc|]. split; [simpl; lia|].
        split; [done|]. split; [simpl; lia|done].
      * unfold bind, logger, modify, ret. cbn [fst snd].
        match goal with |- context [make_thumbnails _ _ _ rest thumbnails ?s1] =>
          destruct (IH thumbnails s1)
            as (more & errors & s' & Hrun & Hlen & Hlog & Hcount & Herr) end.
        exists more, ([(ERROR, "Error creating thumbnail: " +:+ e);
                       (ERROR, format_exc w e)] ++ errors), s'.
        rewrite Hrun. split; [done|]. split; [simpl; lia|].
        split; [rewrite Hlog; simpl; by rewrite <- !app_assoc|].
        split; [simpl; lia|]. by repeat constructor.
    + unfold bind, logger, modify, ret. cbn [fst snd].
      match goal with |- context [make_thumbnails _ _ _ rest thumbnails ?s1] =>
        destruct (IH thumbnails s1)
          as (more & errors & s' & Hrun & Hlen & Hlog & Hcount & Herr) end.
      exists more, ([(ERROR, "Error creating thumbnail: " +:+ e);
                     (ERROR, format_exc w e)] ++ errors), s'.
      rewrite Hrun. split; [done|]. split; [simpl; lia|].
      split; [rewrite Hlog; simpl; by rewrite <- !app_assoc|].
      split; [simpl; lia|]. by repeat constructor.
Qed.

Lemma make_thumbnails_run_ok w decode fault image_paths : ∀ thumbnails s,
  (∀ p, p ∈ image_paths →
        fault p = None ∧
        ∃ x y quality, files s !! p = Some (Jpeg x y quality) ∧ 1 ≤ x ∧ 1 ≤ y) →
  ∃ more,
    make_thumbnails w decode fault image_paths thumbnails s = (Ok (thumbnails ++ more), s) ∧
    length more = length image_paths ∧
    Forall (λ t, 1 ≤ t.1 ≤ 150 ∧ 1 ≤ t.2 ≤ 200) more.
Proof.
  induction image_paths as [|path rest IH]; intros thumbnails s Hall.
  - exists []. simpl. unfold ret. by rewrite app_nil_r.
  - destruct (Hall path) as (Hfault & x & y & quality & Hfile & Hx & Hy); [by left|].
    simpl. unfold bind at 1. unfold try_except at 1. unfold bind at 1.
    rewrite (image_open_jpeg _ _ _ _ _ _ Hfile).
    unfold bind at 1. rewrite thumbnail_run, Hfault.
    assert (H150 : 1 ≤ 150) by lia. assert (H200 : 1 ≤ 200) by lia.
    destruct (thumbnail_size_total x y 150 200 Hx Hy H150 H200) as (x' & y' & Hthumb).
    rewrite Hthumb. unfold ret at 1.
    destruct (thumbnail_size_box _ _ _ _ _ _ _ Hx Hy H150 H200 Hthumb)
      as (Hx' & Hy' & Hsx & Hsy & _).
    destruct (IH (thumbnails ++ [(x', y')]) s) as (more & Hrun & Hlen & Hbox).
    { intros p Hp. apply Hall. by right. }
    exists ((x', y') :: more). rewrite Hrun. split; [by rewrite <- app_assoc|].
    split; [simpl; lia|]. constructor; [simpl; lia|done].
Qed.

(** X14. After a call on a document whose pages render to images that have
    pixels, the thumbnails loop of [main], run on the paths the call
    returned and with a resize that works, opens every one of them: it
    makes one thumbnail for each artifact, each within 150 by 200 pixels,
    and logs no error. *)
Theorem thumbnails_match_pages w bytes tf dpi m q s doc decode fault :
  opens w bytes tf doc →
  (∀ p, fault p = None) →
  (∀ k, (k < page_count doc)%nat →
        1 ≤ (rendered doc dpi k).1 ∧ 1 ≤ (rendered doc dpi k).2) →
  let r := convert_pdf_to_images w bytes tf dpi m q s in
  ∃ paths thumbnails,
    fst r = Ok (paths, page_count doc) ∧
    make_thumbnails w decode fault paths [] (snd r) = (Ok thumbnails, snd r) ∧
    length thumbnails = length paths ∧
    Forall (λ t, 1 ≤ t.1 ≤ 150 ∧ 1 ≤ t.2 ≤ 200) thumbnails.
Proof.
  intros Hopen Hfault Hpix r.
  set (paths := page_path tf <$> filter (λ k, page_ok w doc dpi m k = true)
                                   (seq 0 (page_count doc))).
  destruct (make_thumbnails_run_ok w decode fault paths [] (snd r))
    as (thumbnails & Hrun & Hlen & Hbox).
  { intros p Hp. split; [done|].
    apply list_elem_of_fmap in Hp as (k & -> & Hk).
    apply list_elem_of_filter in Hk as [Hok Hk]. apply elem_of_seq in Hk.
    unfold page_ok in Hok.
    destruct (page_outcome w doc dpi m k) as [[x y]|] eqn:Hout; [|done].
    destruct (Hpix k) as [Hpw Hph]; [lia|].
    destruct (page_outcome_bounds _ _ _ _ _ _ _ Hout Hpw Hph) as [Hx Hy].
    exists x, y, q. split; [|lia].
    apply (convert_opens_page_file _ _ _ _ _ _ _ _ _ (x, y) Hopen); [lia|done]. }
  exists paths, thumbnails. split; [by apply convert_opens_paths|]. done.
Qed.

Lemma thumbnails_match_pages_witness :
  opens (sample_world (letter_doc 3) (broken_page 1)) sample_pdf "/tmp/out" (letter_doc 3) ∧
  (∀ p : string, (λ _ : string, @None exn) p = None) ∧
  (∀ k, (k < page_count (letter_doc 3))%nat →
        1 ≤ (rendered (letter_doc 3) 150 k).1 ∧ 1 ≤ (rendered (letter_doc 3) 150 k).2) ∧
  ∃ paths thumbnails,
    fst (convert_pdf_to_images (sample_world (letter_doc 3) (broken_page 1)) sample_pdf
           "/tmp/out" 150 500 80 initial_state) = Ok (paths, 3%nat) ∧
    length thumbnails = length paths ∧
    Forall (λ t, 1 ≤ t.1 ≤ 150 ∧ 1 ≤ t.2 ≤ 200) thumbnails.
Proof.
  assert (H1 : opens (sample_world (letter_doc 3) (broken_page 1)) sample_pdf "/tmp/out"
                 (letter_doc 3)) by (repeat split; reflexivity).
  assert (H2 : ∀ p : string, (λ _ : string, @None exn) p = None) by reflexivity.
  assert (H3 : ∀ k, (k < page_count (letter_doc 3))%nat →
            1 ≤ (rendered (letter_doc 3) 150 k).1 ∧ 1 ≤ (rendered (letter_doc 3) 150 k).2)
    by (intros k _; split; vm_compute; discriminate).
  split; [exact H1|]. split; [exact H2|]. split; [exact H3|].
  destruct (thumbnails_match_pages _ _ _ 150 500 80 initial_state _
              (λ _, Raise "cannot identify image file") _ H1 H2 H3)
    as (paths & thumbnails & Hr & _ & Hlen & Hbox).
  exists paths, thumbnails. split; [exact Hr|]. split; [exact Hlen|exact Hbox].
Defined.

(** ** The handles of the process *)

(** X15. A call leaves the handles of earlier calls as they were.  A call
    that raises opened no handle.  A call that returns opened one, and left
    it closed exactly when the [total_pages] it returns is not 0. *)
Theorem one_handle_for_each_return w bytes tf dpi m q s :
  let r := convert_pdf_to_images w bytes tf dpi m q s in
  (∀ e, fst r = Raise e → handles (snd r) = handles s) ∧
  (∀ paths total_pages, fst r = Ok (paths, total_pages) →
     ∃ h, handles (snd r) = handles s ++ [h] ∧ (h = Closed ↔ total_pages ≠ 0%nat)).
Proof.
  intros r. subst r. split.
  - intros e He. apply convert_raises_iff in He.
    by apply (aborted_call_opens_no_handle _ _ _ _ _ _ _ e).
  - intros paths total Hr.
    destruct (convert_exit_cases w bytes tf)
      as [[e H]|[[Hmk [e H]]|[(Hmk & Hop & e & H)|[[e H]|[doc H]]]]].
    + destruct (convert_makedirs_fault_run w bytes tf dpi m q s e H) as (Hf & _).
      rewrite Hf in Hr. discriminate.
    + destruct (convert_open_wb_fault_run w bytes tf dpi m q s e Hmk H) as (Hf & _).
      rewrite Hf in Hr. discriminate.
    + destruct (convert_write_fault_run w bytes tf dpi m q s e Hmk Hop H) as (Hf & _).
      rewrite Hf in Hr. discriminate.
    + destruct (convert_open_fails_run w bytes tf dpi m q s e H) as (Hf & _).
      rewrite Hf in Hr. discriminate.
    + rewrite (convert_opens_paths _ _ _ _ _ _ _ _ H) in Hr. injection Hr as _ <-.
      destruct (decide (page_count doc = 0%nat)) as [Hn|Hn].
      * exists Open.
        split; [exact (document_without_pages_stays_open _ _ _ _ _ _ _ _ H Hn)|].
        split; [discriminate|done].
      * exists Closed.
        destruct (document_with_pages_is_closed w bytes tf dpi m q s doc H Hn) as (Hh & _).
        done.
Qed.

Lemma one_handle_for_each_return_witness :
  fst (convert_pdf_to_images (sample_world (letter_doc 0) no_faults) sample_pdf "/tmp/out"
         200 1024 85 used_state) = Ok ([], 0%nat) ∧
  ∃ h, handles (snd (convert_pdf_to_images (sample_world (letter_doc 0) no_faults)
                       sample_pdf "/tmp/out" 200 1024 85 used_state))
       = handles used_state ++ [h] ∧
       (h = Closed ↔ 0%nat ≠ 0%nat).
Proof.
  assert (H : fst (convert_pdf_to_images (sample_world (letter_doc 0) no_faults)
                     sample_pdf "/tmp/out" 200 1024 85 used_state) = Ok ([], 0%nat))
    by reflexivity.
  split; [exact H|].
  exact (proj2 (one_handle_for_each_return (sample_world (letter_doc 0) no_faults)
                  sample_pdf "/tmp/out" 200 1024 85 used_state) _ _ H).
Defined.
